(** * Bugger dashboard: the state engine of [src/index.tsx]

    A shallow embedding of the non-presentation logic of [BuggerApp]: the
    telemetry interval, [handleDeepScan], [patchThreat], [clearPatched] and
    the shield toggle, as functions on the six pieces of React state.

    Conventions of the embedding.
    - A React state cell is a field of [State]; a functional update
      [setX(prev => e)] is [setX (fun prev => e)], applied at once.
    - JavaScript numbers are idealised as rationals ([Q]): rounding is not
      modelled.  A gauge that holds [undefined] or [NaN] is [None].
    - [Math.random()] and the clock are explicit inputs of the handler that
      reads them, one field per call site.
    - The value awaited from the oracle is an input of the step that
      resumes [handleDeepScan] after its [await].
    - Events are handled one at a time with a render in between, so the
      state a handler reads from its closure is the current one. *)

From Stdlib Require Import Ascii String QArith Qminmax Qround Lqa.
From stdpp Require Import base list strings.

Local Open Scope string_scope.
Local Open Scope list_scope.

(** ** JavaScript values, as far as [JSON.parse] produces them *)

Local Unset Elimination Schemes.
Inductive value : Type :=
  | VUndefined
  | VNull
  | VBool (b : bool)
  | VNum (q : Q)
  | VStr (s : string)
  | VArr (items : list value)
  | VObj (props : list (string * value)).
Local Set Elimination Schemes.

(** Own enumerable property [k] of [v], as the object spread [...v] sees
    it.  Primitives, [null] and [undefined] spread to nothing; strings and
    arrays only have index-named properties, which the dashboard never
    reads, so only objects answer.  [props] lists the properties of an
    object as parsed, one binding per key. *)
Fixpoint assoc (k : string) (props : list (string * value)) : option value :=
  match props with
  | [] => None
  | (k', v) :: rest => if String.eqb k' k then Some v else assoc k rest
  end.

Definition own (v : value) (k : string) : option value :=
  match v with
  | VObj props => assoc k props
  | _ => None
  end.

(** [v === s] for a string [s]. *)
Definition strict_eq_str (v : value) (s : string) : bool :=
  match v with
  | VStr s' => String.eqb s' s
  | _ => false
  end.

(** ** Types *)

Inductive Level := info | warning | error | security.

Definition Level_to_string (l : Level) : string :=
  match l with
  | info => "info"
  | warning => "warning"
  | error => "error"
  | security => "security"
  end.

Module LogEntry.
Record t := mk {
  id : string;
  timestamp : string;
  level : Level;
  message : string;
  source : string
}.
End LogEntry.

Inductive Status := active | patched | analyzing.

#[global] Instance Status_eq_dec : EqDecision Status.
Proof. solve_decision. Defined.

(** A threat object at run time.  [status] is only ever written with a
    literal of the code; the other five properties come from the oracle's
    finding through [...f] and hold whatever it held ([VUndefined] when the
    property is absent).  Properties outside the interface are not
    tracked: nothing reads them. *)
Module Threat.
Record t := mk {
  id : value;
  type : value;
  severity : value;
  description : value;
  remediation : value;
  status : Status
}.

(** [{ ...t, status: s }] *)
Definition with_status (s : Status) (x : t) : t :=
  mk (id x) (type x) (severity x) (description x) (remediation x) s.
End Threat.

Module SystemMetrics.
Record t := mk {
  cpu : Q;
  memory : Q;
  network : Q;
  threatLevel : option Q  (* 0-100 *)
}.

(** [{ ...m, threatLevel: v }] *)
Definition with_threatLevel (v : option Q) (m : t) : t :=
  mk (cpu m) (memory m) (network m) v.
End SystemMetrics.

(** ** Constants *)

Definition LOG_SOURCES : list string :=
  ["Kernel"; "AuthSvc"; "NetStack"; "DataLayer"; "UIRenderer"; "LeakGuard"].

Definition msgs : list string :=
  [ "Heartbeat signal received";
    "GET /api/v1/user 200 OK";
    "Cache invalidated for key: session_4x9";
    "Memory cleanup routine triggered";
    "Inbound packet from 192.168.1.45 accepted";
    "Database connection pool synchronized";
    "Third-party endpoint blocked by LeakGuard";
    "Unexpected token in JSON parsing attempt";
    "Resource allocation threshold reached" ].

(** ** Application state *)

Record State := mkState {
  logs : list LogEntry.t;
  threats : list Threat.t;
  metrics : SystemMetrics.t;
  isShieldActive : bool;
  isScanning : bool;
  terminalText : string
}.

Definition initialState : State :=
  mkState [] [] (SystemMetrics.mk 12 45 8 (Some 2%Q)) true false "".

Definition setLogs (f : list LogEntry.t -> list LogEntry.t) (s : State) : State :=
  mkState (f (logs s)) (threats s) (metrics s) (isShieldActive s)
          (isScanning s) (terminalText s).

Definition setThreats (f : list Threat.t -> list Threat.t) (s : State) : State :=
  mkState (logs s) (f (threats s)) (metrics s) (isShieldActive s)
          (isScanning s) (terminalText s).

Definition setMetrics (f : SystemMetrics.t -> SystemMetrics.t) (s : State) : State :=
  mkState (logs s) (threats s) (f (metrics s)) (isShieldActive s)
          (isScanning s) (terminalText s).

Definition setIsShieldActive (b : bool) (s : State) : State :=
  mkState (logs s) (threats s) (metrics s) b (isScanning s) (terminalText s).

Definition setIsScanning (b : bool) (s : State) : State :=
  mkState (logs s) (threats s) (metrics s) (isShieldActive s) b (terminalText s).

Definition setTerminalText (txt : string) (s : State) : State :=
  mkState (logs s) (threats s) (metrics s) (isShieldActive s) (isScanning s) txt.

(** ** Array helpers *)

(** [a.slice(-n)]: the last [n] elements, all of [a] when it is shorter. *)
Definition slice_last {A : Type} (n : nat) (a : list A) : list A :=
  drop (length a - n) a.

(** [a.slice(0, n)] *)
Definition slice_first {A : Type} (n : nat) (a : list A) : list A :=
  take n a.

(** [a[Math.floor(u * a.length)]] for a draw [u] of [Math.random()]; the
    index is in range for every [u] in [0,1). *)
Definition pick (u : Q) (a : list string) : string :=
  nth (Z.to_nat (Qfloor (u * inject_Z (Z.of_nat (length a))))) a "".

(** [x > y] on numbers *)
Definition gt (x y : Q) : bool := negb (Qle_bool x y).

(** ** Simulated telemetry (the [setInterval] callback) *)

Record TickInput := mkTick {
  tick_id : string;      (* Math.random().toString(36).substr(2, 9) *)
  tick_now : string;     (* new Date().toLocaleTimeString('en-GB', ...) *)
  tick_level1 : Q;       (* first Math.random() of the level expression *)
  tick_level2 : Q;       (* second one, drawn when the first test fails *)
  tick_message : Q;
  tick_source : Q;
  tick_cpu : Q;
  tick_memory : Q;
  tick_network : Q
}.

Definition drawLevel (u1 u2 : Q) : Level :=
  if gt u1 (9 # 10) then error else if gt u2 (8 # 10) then warning else info.

Definition generateMockMessage (u : Q) : string := pick u msgs.

Definition newLog (d : TickInput) : LogEntry.t :=
  LogEntry.mk (tick_id d) (tick_now d)
              (drawLevel (tick_level1 d) (tick_level2 d))
              (generateMockMessage (tick_message d))
              (pick (tick_source d) LOG_SOURCES).

(** [Math.min(100, Math.max(0, prev + (u - 0.5) * scale))] *)
Definition fluctuate (prev u scale : Q) : Q :=
  Qmin 100 (Qmax 0 (prev + (u - (1 # 2)) * scale)).

Definition fluctuateMetrics (d : TickInput) (prev : SystemMetrics.t) : SystemMetrics.t :=
  SystemMetrics.mk
    (fluctuate (SystemMetrics.cpu prev) (tick_cpu d) 5)
    (fluctuate (SystemMetrics.memory prev) (tick_memory d) 2)
    (fluctuate (SystemMetrics.network prev) (tick_network d) 10)
    (SystemMetrics.threatLevel prev).

(** The interval callback (lines 55-72):
    [setLogs(prev => [...prev.slice(-49), newLog])], then the [setMetrics]
    that moves the three gauges. *)
Definition telemetryTick (d : TickInput) (s : State) : State :=
  setMetrics (fluctuateMetrics d)
    (setLogs (fun prev => slice_last 49 prev ++ [newLog d]) s).

(** ** Patch, clear, toggle *)

(** [Math.max(0, prev.threatLevel - 15)]; [NaN] and [undefined] give [NaN]. *)
Definition decayThreatLevel (tl : option Q) : option Q :=
  match tl with
  | Some q => Some (Qmax 0 (q - 15))
  | None => None
  end.

Definition patchLog (id now : string) : LogEntry.t :=
  LogEntry.mk ("patch-" +:+ id) now security
              "THREAT NEUTRALIZED: Applied patch to system core" "LeakGuard".

(** [t.id === id ? { ...t, status: 'patched' } : t] *)
Definition patchOne (id : string) (t : Threat.t) : Threat.t :=
  if strict_eq_str (Threat.id t) id then Threat.with_status patched t else t.

(** [patchThreat] (lines 153-165): the three updates, in the order of the
    source; [now] is the clock reading for the audit entry. *)
Definition patchThreat (id now : string) (s : State) : State :=
  setLogs (fun prev => prev ++ [patchLog id now])
    (setMetrics (fun prev =>
        SystemMetrics.with_threatLevel
          (decayThreatLevel (SystemMetrics.threatLevel prev)) prev)
      (setThreats (fun prev => map (patchOne id) prev) s)).

(** [setThreats(prev => prev.filter(t => t.status !== 'patched'))] *)
Definition clearPatched (s : State) : State :=
  setThreats (fun prev => filter (fun t => Threat.status t <> patched) prev) s.

(** [setIsShieldActive(!isShieldActive)] *)
Definition toggleShield (s : State) : State :=
  setIsShieldActive (negb (isShieldActive s)) s.

(** ** Deep scan ([handleDeepScan])

    The handler runs in two steps, split at its [await]:
    [handleDeepScan_call] is the synchronous part up to the request, and
    [handleDeepScan_resume] is the rest, run when the oracle settles. *)

(** [`[${l.level}] ${l.source}: ${l.message}`] *)
Definition formatLog (l : LogEntry.t) : string :=
  "[" +:+ Level_to_string (LogEntry.level l) +:+ "] " +:+ LogEntry.source l
      +:+ ": " +:+ LogEntry.message l.

Definition newline : string := String "010"%char "".

(** The parts of the prompt that depend on the state. *)
Record Request := mkRequest {
  recentLogs : string;
  shieldStatus : string
}.

Definition buildRequest (s : State) : Request :=
  mkRequest (String.concat newline (map formatLog (slice_last 10 (logs s))))
            (if isShieldActive s then "ACTIVE" else "INACTIVE").

(** Lines 92-100: the guard, the two updates, and the request built from
    the last 10 log entries and the shield. *)
Definition handleDeepScan_call (s : State) : State * option Request :=
  if isScanning s then (s, None)
  else
    (setTerminalText
       ("Initializing neural scan... " +:+ newline +:+
        "Accessing application bytecode... " +:+ newline +:+
        "Analyzing outbound patterns...")
       (setIsScanning true s),
     Some (buildRequest s)).

(** What the [try] block meets after the request was sent.  The score is
    [None] when [result.overallThreatScore] is absent; scores of another
    JSON type than number are outside the model. *)
Inductive Outcome :=
  | Rejected                 (* the awaited call rejects *)
  | NotJSON                  (* JSON.parse(response.text) throws *)
  | NoFindingsArray (overallThreatScore : option Q)
                             (* result.findings.map throws a TypeError *)
  | Parsed (findings : list value) (overallThreatScore : option Q).

Definition field (f : value) (k : string) : value :=
  default VUndefined (own f k).

(** [{ id: rid, ...f, status: 'active' }]: a property [id] of [f] replaces
    the generated one, a property [status] of [f] is replaced. *)
Definition mkThreat (rid : string) (f : value) : Threat.t :=
  Threat.mk (default (VStr rid) (own f "id"))
            (field f "type") (field f "severity")
            (field f "description") (field f "remediation")
            active.

(** [result.findings.map(f => ...)]; [ids i] is the token generated for
    the finding at index [i]. *)
Definition newThreats (ids : nat -> string) (findings : list value) : list Threat.t :=
  imap (fun i f => mkThreat (ids i) f) findings.

(** The updater [prev => [...newThreats, ...prev].slice(0, 10)]. *)
Definition ingest (ids : nat -> string) (findings : list value)
    (prev : list Threat.t) : list Threat.t :=
  slice_first 10 (newThreats ids findings ++ prev).

(** The [try] block from the [await] on; [None] when it throws.  The three
    places that can throw (the [await], [JSON.parse] and
    [result.findings.map]) all come before the first state update. *)
Definition scanTry (o : Outcome) (ids : nat -> string) (s : State) : option State :=
  match o with
  | Rejected | NotJSON | NoFindingsArray _ => None
  | Parsed findings score =>
      Some (setTerminalText "Scan Complete. Vulnerabilities cataloged."
             (setMetrics (SystemMetrics.with_threatLevel score)
               (setThreats (ingest ids findings) s)))
  end.

(** [try { ... } catch { ... } finally { setIsScanning(false) }] *)
Definition handleDeepScan_resume (o : Outcome) (ids : nat -> string) (s : State) : State :=
  setIsScanning false
    (match scanTry o ids s with
     | Some s' => s'
     | None => setTerminalText "Scan interrupted: Connection to AI core lost." s
     end).

(** ** The dashboard as a transition system *)

Inductive Event :=
  | Tick (d : TickInput)
  | StartScan
  | OracleSettles (o : Outcome) (ids : nat -> string)
  | PatchThreat (id now : string)
  | ClearPatched
  | ToggleShield.

(** [pending] counts the oracle requests sent and not yet settled;
    [sent] lists every request sent, latest first. *)
Record World := mkWorld {
  app : State;
  pending : nat;
  sent : list Request
}.

Definition initialWorld : World := mkWorld initialState 0 [].

(** One event.  The oracle can only settle a request that is pending. *)
Definition step (w : World) (e : Event) : option World :=
  match e with
  | Tick d => Some (mkWorld (telemetryTick d (app w)) (pending w) (sent w))
  | StartScan =>
      match handleDeepScan_call (app w) with
      | (s', Some r) => Some (mkWorld s' (S (pending w)) (r :: sent w))
      | (s', None) => Some (mkWorld s' (pending w) (sent w))
      end
  | OracleSettles o ids =>
      match pending w with
      | O => None
      | S n => Some (mkWorld (handleDeepScan_resume o ids (app w)) n (sent w))
      end
  | PatchThreat id now => Some (mkWorld (patchThreat id now (app w)) (pending w) (sent w))
  | ClearPatched => Some (mkWorld (clearPatched (app w)) (pending w) (sent w))
  | ToggleShield => Some (mkWorld (toggleShield (app w)) (pending w) (sent w))
  end.

Fixpoint run (w : World) (es : list Event) : option World :=
  match es with
  | [] => Some w
  | e :: es' =>
      match step w e with
      | Some w' => run w' es'
      | None => None
      end
  end.

(** ** Well-typed findings, as the response schema describes them *)

Inductive Severity := low | medium | high | critical.

Definition Severity_to_string (s : Severity) : string :=
  match s with
  | low => "low"
  | medium => "medium"
  | high => "high"
  | critical => "critical"
  end.

Module Finding.
Record t := mk {
  type : string;
  severity : Severity;
  description : string;
  remediation : string
}.

Definition to_value (f : t) : value :=
  VObj [ ("type", VStr (type f));
         ("severity", VStr (Severity_to_string (severity f)));
         ("description", VStr (description f));
         ("remediation", VStr (remediation f)) ].
End Finding.

(** ** Predicates used in the statements *)

Definition notPatched (t : Threat.t) : Prop := Threat.status t <> patched.

Definition isPatched (t : Threat.t) : bool :=
  match Threat.status t with
  | patched => true
  | _ => false
  end.

(** [patchThreat id] has nothing to patch: no threat carries [id], or
    each one that does is patched already. *)
Definition nothingToPatch (id : string) (s : State) : bool :=
  forallb (fun t => negb (strict_eq_str (Threat.id t) id) || isPatched t) (threats s).

(** ** Sample data *)

Definition threatA : Threat.t :=
  Threat.mk (VStr "t1") (VStr "leak") (VStr "high") (VStr "d") (VStr "r") active.

Definition threatB : Threat.t :=
  Threat.mk (VStr "t2") (VStr "xss") (VStr "low") (VStr "d2") (VStr "r2") patched.

Definition sampleState : State :=
  setThreats (fun _ => [threatA; threatB]) initialState.

Definition sampleTick : TickInput :=
  mkTick "k3x9q0z1a" "12:00:00" (1 # 2) (1 # 2) (1 # 4) (1 # 2) (3 # 4) (1 # 4) (9 # 10).

(** A run of telemetry ticks, first input first. *)
Definition telemetryTicks (ds : list TickInput) (s : State) : State :=
  fold_left (fun acc d => telemetryTick d acc) ds s.

Definition inRange (q : Q) : Prop := (0 <= q <= 100)%Q.

(** ** The item schema of [responseSchema] *)

Definition isString (v : option value) : bool :=
  match v with
  | Some (VStr _) => true
  | _ => false
  end.

Definition severityEnum : list string := ["low"; "medium"; "high"; "critical"].

Definition inSeverityEnum (v : option value) : bool :=
  match v with
  | Some (VStr s) => existsb (String.eqb s) severityEnum
  | _ => false
  end.

(** A finding with the four required properties, each a string, and a
    severity of the enumeration. *)
Definition conformsFinding (f : value) : bool :=
  isString (own f "type") && inSeverityEnum (own f "severity")
  && isString (own f "description") && isString (own f "remediation").

Definition malformedFinding : value :=
  VObj [("type", VStr "leak"); ("severity", VStr "catastrophic")].

(** The dashboard while its first scan is awaited. *)
Definition scanningState : State := fst (handleDeepScan_call initialState).

Definition interrupted : string := "Scan interrupted: Connection to AI core lost.".

(** The threat the code builds from a well-typed finding and a token. *)
Definition threatOf (rid : string) (f : Finding.t) : Threat.t :=
  Threat.mk (VStr rid) (VStr (Finding.type f))
            (VStr (Severity_to_string (Finding.severity f)))
            (VStr (Finding.description f)) (VStr (Finding.remediation f))
            active.

(** What holds of every dashboard reached from the initial one: the
    scanning flag says whether a request is pending, and the registry
    holds at most 10 threats. *)
Definition consistent (w : World) : Prop :=
  pending w = (if isScanning (app w) then 1 else 0)
  /\ length (threats (app w)) <= 10.

Definition sampleFinding : Finding.t := Finding.mk "leak" high "d" "r".

Definition sampleIds (i : nat) : string :=
  match i with
  | O => "a1b2c3d4e"
  | _ => "f5g6h7i8j"
  end.

(** ** Log level: the rule of the specification, for comparison *)

(** The single-draw rule as the specification words it: one uniform draw
    [u]; [u > 0.9] gives error, else [u > 0.8] gives warning, else info. *)
Definition specLevel (u : Q) : Level :=
  if gt u (9 # 10) then error else if gt u (8 # 10) then warning else info.

#[global] Instance Level_eq_dec : EqDecision Level.
Proof. solve_decision. Defined.

(** The midpoints of [n] equal cells of [0,1): (2k+1)/(2n) for k < n. *)
Definition midpoints (n : nat) : list Q :=
  map (fun k => Z.of_nat (2 * k + 1) # Pos.of_nat (2 * n)) (seq 0 n).

(** How many of the [n * n] pairs of midpoints make [drawLevel] answer [l]. *)
Definition countLevel (l : Level) (n : nat) : nat :=
  length (filter (fun p => drawLevel (fst p) (snd p) = l)
                 (list_prod (midpoints n) (midpoints n))).

(** ** Ids of a collection *)

Definition logIds (s : State) : list string := map LogEntry.id (logs s).

Definition threatIds (s : State) : list value := map Threat.id (threats s).

(** ** Scenarios *)

Definition netStackEntry : LogEntry.t :=
  LogEntry.mk "q7w8e9r0t" "11:59:58" error "GET /api/v1/user 200 OK" "NetStack".

Definition oneLogState : State := setLogs (fun _ => [netStackEntry]) initialState.

Definition oneThreatState : State :=
  setMetrics (SystemMetrics.with_threatLevel (Some (50 # 1)))
    (setThreats (fun _ => [threatA]) initialState).

(** ** Presentation: the pure expressions of the JSX *)

(** [Math.round(value)] of [MetricBar] (line 342): the nearest integer,
    halves going up. *)
Definition Math_round (q : Q) : Z := Qfloor (q + (1 # 2)).

(** The class of the THREAT_INDEX bar (line 217).  A comparison with
    [undefined] or [NaN] is false. *)
Definition threatIndexColor (tl : option Q) : string :=
  match tl with
  | Some q =>
      if gt q 70 then "bg-red-500"
      else if gt q 30 then "bg-amber-500" else "bg-emerald-500"
  | None => "bg-emerald-500"
  end.

(** How alarming a class of the bar is: red over amber over green. *)
Definition alarm (color : string) : nat :=
  if String.eqb color "bg-red-500" then 2
  else if String.eqb color "bg-amber-500" then 1 else 0.

(** [threat.status === 'active']: the APPLY_PATCH button is rendered
    (line 287). *)
Definition patchOffered (t : Threat.t) : bool :=
  match Threat.status t with
  | active => true
  | _ => false
  end.

(** ** Predicates on runs *)

Definition unitDraw (u : Q) : Prop := (0 <= u < 1)%Q.

Definition gaugesInRange (m : SystemMetrics.t) : Prop :=
  inRange (SystemMetrics.cpu m) /\ inRange (SystemMetrics.memory m)
  /\ inRange (SystemMetrics.network m).

Definition threatLevelInRange (m : SystemMetrics.t) : Prop :=
  exists q, SystemMetrics.threatLevel m = Some q /\ inRange q.

(** The oracle's answer, if the event is one with a findings array,
    carries a score in [0,100]. *)
Definition scoreOk (e : Event) : bool :=
  match e with
  | OracleSettles (Parsed _ (Some q)) _ => Qle_bool 0 q && Qle_bool q 100
  | OracleSettles (Parsed _ None) _ => false
  | _ => true
  end.

(** Audit entries appended since the last telemetry tick, counted along a
    run that starts with [n] of them. *)
Definition auditsSinceTick (n : nat) (es : list Event) : nat :=
  fold_left (fun k e =>
               match e with
               | Tick _ => 0
               | PatchThreat _ _ => S k
               | _ => k
               end) es n.

(** The entry is an audit entry of [patchThreat]. *)
Definition isAuditEntry (l : LogEntry.t) : Prop :=
  exists id now, l = patchLog id now.

Definition scanStartText : string :=
  "Initializing neural scan... " +:+ newline +:+
  "Accessing application bytecode... " +:+ newline +:+
  "Analyzing outbound patterns...".

Definition scanCompleteText : string := "Scan Complete. Vulnerabilities cataloged.".

(** Threats that [patchThreat] or the APPLY_PATCH button still apply to. *)
Definition unpatched (l : list Threat.t) : list Threat.t :=
  filter notPatched l.

Definition tenFindings : list value :=
  replicate 10 (Finding.to_value sampleFinding).

(** The log entries that the events of a run produce, in order. *)
Definition entriesOf (es : list Event) : list LogEntry.t :=
  flat_map (fun e =>
              match e with
              | Tick d => [newLog d]
              | PatchThreat id now => [patchLog id now]
              | _ => []
              end) es.

(** What the SCANNER_OUTPUT panel can show, by the scans sent so far. *)
Definition scanPanel (w : World) : Prop :=
  match sent w with
  | [] => terminalText (app w) = "" /\ isScanning (app w) = false
  | _ :: _ =>
      if isScanning (app w) then terminalText (app w) = scanStartText
      else terminalText (app w) = scanCompleteText
           \/ terminalText (app w) = interrupted
  end.

(** ** Findings that carry an id of their own *)

(** A finding of the schema's shape with one more property, [id]. *)
Definition ownIdFinding : value :=
  VObj [ ("id", VStr "t1"); ("type", VStr "leak"); ("severity", VStr "high");
         ("description", VStr "d"); ("remediation", VStr "r") ].

(** The ids that [{ id: <token>, ...f }] gives the threats of a scan: the
    finding's own [id] when it has one, the token otherwise. *)
Definition insertedThreatIds (ids : nat -> string) (findings : list value) : list value :=
  imap (fun i f => default (VStr (ids i)) (own f "id")) findings.

(** * Properties *)

(** ** Arrays *)

Section Slices.
Context {A : Type}.
Implicit Types (a b : list A) (x : A) (n : nat).

Lemma slice_last_length n a : length (slice_last n a) = Nat.min n (length a).
Proof. unfold slice_last. rewrite length_drop. lia. Qed.

Lemma slice_last_short n a : length a <= n -> slice_last n a = a.
Proof.
  intros H. unfold slice_last.
  replace (length a - n) with 0 by lia. reflexivity.
Qed.

(** Keeping the last [n] and pushing one is keeping the last [n + 1] of
    the pushed array. *)
Lemma slice_last_push n a x : slice_last n a ++ [x] = slice_last (S n) (a ++ [x]).
Proof.
  unfold slice_last. rewrite length_app. simpl.
  replace (length a + 1 - S n) with (length a - n) by lia.
  rewrite drop_app_le by lia. reflexivity.
Qed.

Lemma slice_last_app_long n a b : n <= length b -> slice_last n (a ++ b) = slice_last n b.
Proof.
  intros H. unfold slice_last. rewrite length_app.
  rewrite drop_app_ge by lia. f_equal. lia.
Qed.

Lemma slice_last_app_short n a b :
  length b <= n -> slice_last n (a ++ b) = slice_last (n - length b) a ++ b.
Proof.
  intros H. unfold slice_last. rewrite length_app.
  rewrite drop_app_le by lia. do 2 f_equal. lia.
Qed.

Lemma slice_last_idem n m a : n <= m -> slice_last n (slice_last m a) = slice_last n a.
Proof.
  intros H. unfold slice_last. rewrite length_drop, drop_drop. f_equal. lia.
Qed.

Lemma slice_last_app_absorb n a b :
  slice_last n (slice_last n a ++ b) = slice_last n (a ++ b).
Proof.
  destruct (decide (n <= length b)) as [Hb | Hb].
  - rewrite !slice_last_app_long by exact Hb. reflexivity.
  - rewrite !slice_last_app_short by lia.
    rewrite slice_last_idem by lia. reflexivity.
Qed.

Lemma slice_first_length n a : length (slice_first n a) = Nat.min n (length a).
Proof. apply length_take. Qed.
End Slices.

(** ** Threat registry: [clearPatched] *)

Lemma sublist_filter_max {A : Type} (P : A -> Prop) `{!forall x, Decision (P x)}
    (l k : list A) :
  sublist l k -> Forall P l -> sublist l (filter P k).
Proof.
  induction 1 as [| x l k Hs IH | x l k Hs IH]; intros HP.
  - constructor.
  - apply Forall_cons in HP as [Hx HP].
    rewrite filter_cons_True by exact Hx. constructor. auto.
  - destruct (decide (P x)) as [Hx | Hx].
    + rewrite filter_cons_True by exact Hx. constructor. auto.
    + rewrite filter_cons_False by exact Hx. auto.
Qed.

(** C9: [clearPatched] leaves no patched entry, keeps every entry that was
    not patched, unchanged and in the same relative order (the result is
    the largest subsequence of the registry without a patched entry), and
    touches nothing but the registry. *)
Theorem clearPatched_removes_exactly_patched (s : State) :
  Forall notPatched (threats (clearPatched s))
  /\ sublist (threats (clearPatched s)) (threats s)
  /\ (forall l, sublist l (threats s) -> Forall notPatched l ->
        sublist l (threats (clearPatched s)))
  /\ (forall t, t ∈ threats s -> Threat.status t <> patched ->
        t ∈ threats (clearPatched s))
  /\ (forall t, t ∈ threats s -> Threat.status t = active ->
        t ∈ threats (clearPatched s))
  /\ logs (clearPatched s) = logs s
  /\ metrics (clearPatched s) = metrics s.
Proof.
  simpl. repeat split.
  - apply Forall_forall. intros t Ht.
    apply list_elem_of_filter in Ht. tauto.
  - apply sublist_filter.
  - intros l Hl HP. apply sublist_filter_max; assumption.
  - intros t Ht Hn. apply list_elem_of_filter. auto.
  - intros t Ht Ha. apply list_elem_of_filter. split; [congruence | assumption].
Qed.

Lemma clearPatched_removes_exactly_patched_witness : threatA ∈ threats (clearPatched sampleState).
Proof.
  apply (clearPatched_removes_exactly_patched sampleState).
  - vm_compute. left.
  - reflexivity.
Defined.

(** ** Threat registry: [patchThreat] *)

Lemma with_status_same (t : Threat.t) : Threat.with_status (Threat.status t) t = t.
Proof. destruct t. reflexivity. Qed.

Lemma patchOne_spec (id : string) (t : Threat.t) :
  Threat.id (patchOne id t) = Threat.id t
  /\ Threat.type (patchOne id t) = Threat.type t
  /\ Threat.severity (patchOne id t) = Threat.severity t
  /\ Threat.description (patchOne id t) = Threat.description t
  /\ Threat.remediation (patchOne id t) = Threat.remediation t
  /\ Threat.status (patchOne id t) =
       (if strict_eq_str (Threat.id t) id then patched else Threat.status t).
Proof. unfold patchOne. destruct (strict_eq_str (Threat.id t) id); repeat split. Qed.

Lemma patchOne_other (id : string) (t : Threat.t) :
  strict_eq_str (Threat.id t) id = false -> patchOne id t = t.
Proof. unfold patchOne. intros ->. reflexivity. Qed.

Lemma patchOne_patched (id : string) (t : Threat.t) :
  Threat.status t = patched -> patchOne id t = t.
Proof.
  unfold patchOne. intros H.
  destruct (strict_eq_str (Threat.id t) id); [| reflexivity].
  rewrite <- H. apply with_status_same.
Qed.

Lemma patchOne_idem (id : string) (t : Threat.t) :
  patchOne id (patchOne id t) = patchOne id t.
Proof.
  unfold patchOne at 2 3.
  destruct (strict_eq_str (Threat.id t) id) eqn:E.
  - apply patchOne_patched. reflexivity.
  - apply patchOne_other. exact E.
Qed.

Lemma decayThreatLevel_floor (tl : option Q) (q : Q) :
  decayThreatLevel tl = Some q -> (0 <= q)%Q.
Proof.
  destruct tl as [p |]; simpl; [| discriminate].
  intros [= <-]. apply Q.le_max_l.
Qed.

Lemma decayThreatLevel_range (p q : Q) :
  (0 <= p <= 100)%Q -> decayThreatLevel (Some p) = Some q -> (0 <= q <= 100)%Q.
Proof.
  intros [H0 H100] [= <-]. split; [apply Q.le_max_l |].
  apply Q.max_lub; [discriminate |].
  apply Qle_trans with p; [| exact H100].
  rewrite <- (Qplus_0_r p) at 2. apply Qplus_le_r. discriminate.
Qed.

(** C10: [patchThreat id] keeps the registry's length and order; at every
    position the threat keeps its id, type, severity, description and
    remediation, its status becomes patched when its id is [id] and the
    whole threat is unchanged otherwise; cpu, memory and network are
    unchanged and threatLevel is lowered by 15, floored at 0. *)
Theorem patchThreat_changes_only_status (id now : string) (s : State) :
  length (threats (patchThreat id now s)) = length (threats s)
  /\ (forall (i : nat) (t : Threat.t), threats s !! i = Some t ->
        exists t', threats (patchThreat id now s) !! i = Some t'
          /\ Threat.id t' = Threat.id t
          /\ Threat.type t' = Threat.type t
          /\ Threat.severity t' = Threat.severity t
          /\ Threat.description t' = Threat.description t
          /\ Threat.remediation t' = Threat.remediation t
          /\ Threat.status t' =
               (if strict_eq_str (Threat.id t) id then patched else Threat.status t)
          /\ (strict_eq_str (Threat.id t) id = false -> t' = t))
  /\ SystemMetrics.cpu (metrics (patchThreat id now s)) = SystemMetrics.cpu (metrics s)
  /\ SystemMetrics.memory (metrics (patchThreat id now s)) = SystemMetrics.memory (metrics s)
  /\ SystemMetrics.network (metrics (patchThreat id now s)) = SystemMetrics.network (metrics s)
  /\ (forall q : Q, SystemMetrics.threatLevel (metrics s) = Some q ->
        SystemMetrics.threatLevel (metrics (patchThreat id now s)) = Some (Qmax 0 (q - 15))).
Proof.
  simpl. split; [apply length_map |]. split.
  - intros i t Hi. exists (patchOne id t). split.
    + rewrite list_lookup_fmap, Hi. reflexivity.
    + pose proof (patchOne_spec id t) as (? & ? & ? & ? & ? & ?).
      repeat split; try assumption. apply patchOne_other.
  - repeat split. intros q ->. reflexivity.
Qed.

Lemma patchThreat_changes_only_status_witness :
  exists t', threats (patchThreat "t1" "12:00:05" sampleState) !! 0%nat = Some t'
    /\ Threat.id t' = VStr "t1" /\ Threat.status t' = patched.
Proof.
  destruct (patchThreat_changes_only_status "t1" "12:00:05" sampleState)
    as (_ & H & _).
  destruct (H 0%nat threatA) as (t' & Ht & Hid & _ & _ & _ & _ & Hst & _).
  - reflexivity.
  - exists t'. split; [exact Ht |]. split; [exact Hid | exact Hst].
Defined.

(** ** Patch action: what a patch with nothing to patch does *)

Lemma nothingToPatch_map (id : string) (l : list Threat.t) :
  forallb (fun t => negb (strict_eq_str (Threat.id t) id) || isPatched t) l = true ->
  map (patchOne id) l = l.
Proof.
  induction l as [| t l IH]; simpl; [reflexivity |].
  intros H. apply andb_prop in H as [Ht Hl].
  rewrite IH by exact Hl. f_equal.
  apply orb_prop in Ht as [Ht | Ht].
  - apply patchOne_other. apply negb_true_iff. exact Ht.
  - apply patchOne_patched. unfold isPatched in Ht.
    destruct (Threat.status t); congruence.
Qed.

Lemma nothingToPatch_after_patch (id now : string) (s : State) :
  nothingToPatch id (patchThreat id now s) = true.
Proof.
  unfold nothingToPatch. simpl. apply forallb_forall. intros t' Ht'.
  apply in_map_iff in Ht' as (t & <- & _).
  pose proof (patchOne_spec id t) as (Hid & _ & _ & _ & _ & Hst).
  rewrite Hid. unfold isPatched. rewrite Hst.
  destruct (strict_eq_str (Threat.id t) id); reflexivity.
Qed.

(** C1, as stated, fails: on the initial dashboard (no threat at all,
    threatLevel 2) a patch of an unknown id lowers threatLevel to 0 and
    appends the audit entry. *)
Lemma patchThreat_unknown_id_still_decays_and_logs :
  nothingToPatch "nonexistent" initialState = true
  /\ SystemMetrics.threatLevel (metrics initialState) = Some (2 # 1)
  /\ SystemMetrics.threatLevel
       (metrics (patchThreat "nonexistent" "12:00:00" initialState)) = Some (0 # 1)
  /\ metrics (patchThreat "nonexistent" "12:00:00" initialState) <> metrics initialState
  /\ logs initialState = []
  /\ logs (patchThreat "nonexistent" "12:00:00" initialState)
       = [patchLog "nonexistent" "12:00:00"]
  /\ logs (patchThreat "nonexistent" "12:00:00" initialState) <> logs initialState.
Proof.
  repeat split; try reflexivity; vm_compute; discriminate.
Qed.

(** C1, amended: a patch with nothing to patch leaves the registry and the
    cpu, memory and network gauges unchanged, but still lowers threatLevel
    by 15 (floored at 0) and still appends one audit entry.  A second
    patch of the same id finds nothing to patch: it leaves the registry as
    the first one left it, and decays and logs once more. *)
Theorem patchThreat_noop_registry_only :
  (forall (id now : string) (s : State),
      nothingToPatch id s = true ->
      threats (patchThreat id now s) = threats s
      /\ SystemMetrics.cpu (metrics (patchThreat id now s)) = SystemMetrics.cpu (metrics s)
      /\ SystemMetrics.memory (metrics (patchThreat id now s)) = SystemMetrics.memory (metrics s)
      /\ SystemMetrics.network (metrics (patchThreat id now s)) = SystemMetrics.network (metrics s)
      /\ SystemMetrics.threatLevel (metrics (patchThreat id now s))
           = decayThreatLevel (SystemMetrics.threatLevel (metrics s))
      /\ logs (patchThreat id now s) = logs s ++ [patchLog id now])
  /\ (forall (id now now' : string) (s : State),
      threats (patchThreat id now' (patchThreat id now s)) = threats (patchThreat id now s)
      /\ SystemMetrics.threatLevel (metrics (patchThreat id now' (patchThreat id now s)))
           = decayThreatLevel (SystemMetrics.threatLevel (metrics (patchThreat id now s)))
      /\ logs (patchThreat id now' (patchThreat id now s))
           = logs (patchThreat id now s) ++ [patchLog id now']
      /\ nothingToPatch id (patchThreat id now s) = true).
Proof.
  split.
  - intros id now s H. simpl. repeat split.
    apply nothingToPatch_map. exact H.
  - intros id now now' s. split; [| split; [| split]].
    + simpl. rewrite map_map. apply map_ext. intros t. apply patchOne_idem.
    + reflexivity.
    + reflexivity.
    + apply nothingToPatch_after_patch.
Qed.

Lemma patchThreat_noop_registry_only_witness :
  threats (patchThreat "t2" "12:00:05" sampleState) = threats sampleState
  /\ logs (patchThreat "t2" "12:00:05" sampleState)
       = logs sampleState ++ [patchLog "t2" "12:00:05"].
Proof.
  destruct (proj1 patchThreat_noop_registry_only "t2" "12:00:05" sampleState)
    as (Ht & _ & _ & _ & _ & Hl).
  - reflexivity.
  - split; [exact Ht | exact Hl].
Defined.

(** ** Gauges *)

Lemma fluctuate_inRange (prev u scale : Q) : inRange (fluctuate prev u scale).
Proof.
  unfold inRange, fluctuate. split.
  - apply Q.min_glb; [discriminate | apply Q.le_max_l].
  - apply Q.le_min_l.
Qed.

(** The telemetry tick clamps the three gauges it writes and passes
    threatLevel through. *)
Lemma telemetryTick_gauges (d : TickInput) (s : State) :
  inRange (SystemMetrics.cpu (metrics (telemetryTick d s)))
  /\ inRange (SystemMetrics.memory (metrics (telemetryTick d s)))
  /\ inRange (SystemMetrics.network (metrics (telemetryTick d s)))
  /\ SystemMetrics.threatLevel (metrics (telemetryTick d s))
       = SystemMetrics.threatLevel (metrics s).
Proof. simpl. repeat split; apply fluctuate_inRange. Qed.

Lemma handleDeepScan_resume_threatLevel (findings : list value) (score : option Q)
    (ids : nat -> string) (s : State) :
  SystemMetrics.threatLevel (metrics (handleDeepScan_resume (Parsed findings score) ids s))
    = score.
Proof. reflexivity. Qed.

(** C2 fails on the scan's write: [handleDeepScan] stores the oracle's
    [overallThreatScore] as it is.  With a response whose score is 150 the
    threatLevel gauge is 150 after the scan, outside [0,100]; a response
    without the property leaves no number in the gauge.  (The telemetry
    tick's three writes are clamped and the patch's decay is floored at 0:
    [telemetryTick_gauges], [decayThreatLevel_range].) *)
Theorem handleDeepScan_stores_score_unclamped :
  exists w : World,
    run initialWorld
        [StartScan; OracleSettles (Parsed [] (Some (150 # 1))) (fun _ => "")] = Some w
    /\ SystemMetrics.threatLevel (metrics (app w)) = Some (150 # 1)
    /\ ~ inRange (150 # 1)
    /\ SystemMetrics.threatLevel
         (metrics (handleDeepScan_resume (Parsed [] None) (fun _ => "")
                     (fst (handleDeepScan_call initialState)))) = None.
Proof.
  eexists. split; [reflexivity |]. split; [reflexivity |]. split; [| reflexivity].
  intros [_ H]. apply H. reflexivity.
Qed.

(** ** Log store *)

Lemma telemetryTick_logs (d : TickInput) (s : State) :
  logs (telemetryTick d s) = slice_last 50 (logs s ++ [newLog d]).
Proof. simpl. apply slice_last_push. Qed.

Lemma telemetryTick_logs_bounded (d : TickInput) (s : State) :
  length (logs (telemetryTick d s)) <= 50.
Proof. rewrite telemetryTick_logs, slice_last_length. lia. Qed.

Lemma telemetryTicks_logs (ds : list TickInput) (s : State) :
  ds <> [] ->
  logs (telemetryTicks ds s) = slice_last 50 (logs s ++ map newLog ds).
Proof.
  revert s. induction ds as [| d ds IH]; intros s Hne; [congruence |].
  unfold telemetryTicks. simpl. fold (telemetryTicks ds (telemetryTick d s)).
  destruct ds as [| d' ds'].
  - simpl. apply slice_last_push.
  - rewrite IH by discriminate.
    rewrite telemetryTick_logs, slice_last_app_absorb, <- app_assoc.
    reflexivity.
Qed.

(** After at least 50 ticks in a row the store holds the entries of the
    last 50 of them, oldest first, whatever it held before. *)
Lemma telemetryTicks_bounded_history (ds : list TickInput) (s : State) :
  50 <= length ds ->
  logs (telemetryTicks ds s) = map newLog (slice_last 50 ds)
  /\ length (logs (telemetryTicks ds s)) = 50.
Proof.
  intros H.
  assert (Hne : ds <> []) by (destruct ds; [simpl in H; lia | discriminate]).
  rewrite telemetryTicks_logs by exact Hne.
  rewrite slice_last_app_long by (rewrite length_map; lia).
  split.
  - unfold slice_last. rewrite length_map. apply skipn_map.
  - rewrite slice_last_length, length_map. lia.
Qed.

Lemma patchThreat_logs_grow (id now : string) (s : State) :
  logs (patchThreat id now s) = logs s ++ [patchLog id now]
  /\ length (logs (patchThreat id now s)) = S (length (logs s)).
Proof. simpl. split; [reflexivity |]. rewrite length_app. simpl. lia. Qed.

(** C3 fails on the patch action: [patchThreat] appends its audit entry
    without evicting.  After 50 telemetry ticks the store is full (50
    entries); one patch then leaves 51, all 50 earlier entries still
    there. *)
Theorem patchThreat_appends_without_eviction :
  length (logs (telemetryTicks (replicate 50 sampleTick) initialState)) = 50
  /\ length (logs (patchThreat "t1" "12:01:40"
                     (telemetryTicks (replicate 50 sampleTick) initialState))) = 51
  /\ logs (patchThreat "t1" "12:01:40"
             (telemetryTicks (replicate 50 sampleTick) initialState))
       = logs (telemetryTicks (replicate 50 sampleTick) initialState)
           ++ [patchLog "t1" "12:01:40"].
Proof.
  pose proof (telemetryTicks_bounded_history (replicate 50 sampleTick) initialState)
    as [_ Hlen]; [rewrite length_replicate; lia |].
  split; [exact Hlen |].
  destruct (patchThreat_logs_grow "t1" "12:01:40"
              (telemetryTicks (replicate 50 sampleTick) initialState)) as [Heq Hl].
  split; [rewrite Hl, Hlen; reflexivity | exact Heq].
Qed.

(** ** Scan: failure and ingestion *)

Lemma scanTry_throws (o : Outcome) (ids : nat -> string) (s : State) :
  scanTry o ids s = None <->
  o = Rejected \/ o = NotJSON \/ exists score, o = NoFindingsArray score.
Proof.
  split.
  - destruct o as [| | score | fs score]; simpl; intros H; eauto. discriminate.
  - intros [-> | [-> | [score ->]]]; reflexivity.
Qed.

(** C4, as stated, fails: the code does not check the parsed response
    against the schema.  A finding with a severity outside the enumeration
    and without description and remediation is ingested as it is, with a
    score in the response and without one. *)
Lemma handleDeepScan_ingests_malformed_finding :
  conformsFinding malformedFinding = false
  /\ threats scanningState = []
  /\ threats (handleDeepScan_resume (Parsed [malformedFinding] (Some (42 # 1)))
                (fun _ => "a1b2c3d4e") scanningState)
       = [Threat.mk (VStr "a1b2c3d4e") (VStr "leak") (VStr "catastrophic")
                    VUndefined VUndefined active]
  /\ SystemMetrics.threatLevel (metrics scanningState) = Some (2 # 1)
  /\ SystemMetrics.threatLevel
       (metrics (handleDeepScan_resume (Parsed [malformedFinding] (Some (42 # 1)))
                   (fun _ => "a1b2c3d4e") scanningState)) = Some (42 # 1)
  /\ length (threats (handleDeepScan_resume (Parsed [malformedFinding] None)
                        (fun _ => "a1b2c3d4e") scanningState)) = 1.
Proof. repeat split. Qed.

(** C4, amended: when the [try] block throws (the oracle call rejects,
    the response text is not JSON, or the parsed value has no findings
    array) the registry, the gauges, the log store and the shield are left
    as they were, the status line reads "Scan interrupted", and scanning
    is reset.  The code does no validation of its own: the findings of a
    response that parses and has a findings array are put into the
    registry as they are, whatever they contain and whether or not the
    response has a score. *)
Theorem handleDeepScan_failure_mutates_nothing :
  (forall (o : Outcome) (ids : nat -> string) (s : State),
      scanTry o ids s = None ->
      threats (handleDeepScan_resume o ids s) = threats s
      /\ metrics (handleDeepScan_resume o ids s) = metrics s
      /\ logs (handleDeepScan_resume o ids s) = logs s
      /\ isShieldActive (handleDeepScan_resume o ids s) = isShieldActive s
      /\ terminalText (handleDeepScan_resume o ids s) = interrupted
      /\ isScanning (handleDeepScan_resume o ids s) = false)
  /\ (forall (o : Outcome) (ids : nat -> string) (s : State),
      scanTry o ids s = None <->
      o = Rejected \/ o = NotJSON \/ exists score, o = NoFindingsArray score)
  /\ (forall (findings : list value) (score : option Q) (ids : nat -> string) (s : State),
      threats (handleDeepScan_resume (Parsed findings score) ids s)
        = slice_first 10 (newThreats ids findings ++ threats s)).
Proof.
  split; [| split].
  - intros o ids s H. unfold handleDeepScan_resume. rewrite H.
    repeat split.
  - apply scanTry_throws.
  - intros findings score ids s. reflexivity.
Qed.

Lemma handleDeepScan_failure_mutates_nothing_witness :
  threats (handleDeepScan_resume NotJSON (fun _ => "") sampleState) = threats sampleState
  /\ metrics (handleDeepScan_resume NotJSON (fun _ => "") sampleState) = metrics sampleState.
Proof.
  destruct (proj1 handleDeepScan_failure_mutates_nothing NotJSON (fun _ => "") sampleState)
    as (Ht & Hm & _).
  - reflexivity.
  - split; [exact Ht | exact Hm].
Defined.

Lemma newThreats_length (ids : nat -> string) (findings : list value) :
  length (newThreats ids findings) = length findings.
Proof. apply length_imap. Qed.

Lemma mkThreat_well_typed (rid : string) (f : Finding.t) :
  mkThreat rid (Finding.to_value f) = threatOf rid f.
Proof. reflexivity. Qed.

Lemma newThreats_lookup (ids : nat -> string) (fs : list Finding.t) (i : nat) (f : Finding.t) :
  fs !! i = Some f ->
  newThreats ids (map Finding.to_value fs) !! i = Some (threatOf (ids i) f).
Proof.
  intros H. unfold newThreats.
  rewrite list_lookup_imap, list_lookup_fmap, H. reflexivity.
Qed.

Lemma ingest_length (ids : nat -> string) (findings : list value) (prev : list Threat.t) :
  length (ingest ids findings prev) = Nat.min 10 (length findings + length prev).
Proof.
  unfold ingest. rewrite slice_first_length, length_app, newThreats_length.
  reflexivity.
Qed.

(** ** Reachable dashboards *)

Lemma step_consistent (w w' : World) (e : Event) :
  consistent w -> step w e = Some w' -> consistent w'.
Proof.
  intros [Hp Hl] Hs. destruct w as [s p rs]. simpl in *.
  destruct e as [d | | o ids | id now | |]; simpl in Hs.
  - injection Hs as <-. split; simpl; assumption.
  - unfold handleDeepScan_call in Hs.
    destruct (isScanning s) eqn:E; injection Hs as <-; split; simpl;
      rewrite ?E; try assumption. lia.
  - destruct p as [| n]; [discriminate |]. injection Hs as <-. split; simpl.
    + destruct (isScanning s); lia.
    + destruct o as [| | score | fs score]; simpl; try assumption.
      rewrite ingest_length. lia.
  - injection Hs as <-. split; simpl; [assumption |].
    rewrite length_map. assumption.
  - injection Hs as <-. split; simpl; [assumption |].
    etransitivity; [apply length_filter | assumption].
  - injection Hs as <-. split; simpl; assumption.
Qed.

Lemma run_consistent (es : list Event) (w w' : World) :
  consistent w -> run w es = Some w' -> consistent w'.
Proof.
  revert w. induction es as [| e es IH]; intros w Hw; simpl.
  - intros [= <-]. exact Hw.
  - destruct (step w e) as [w1 |] eqn:E; [| discriminate].
    apply IH. eapply step_consistent; eassumption.
Qed.

Lemma initialWorld_consistent : consistent initialWorld.
Proof. split; simpl; lia. Qed.

Lemma ingest_lookup_new (ids : nat -> string) (findings : list value)
    (prev : list Threat.t) (i : nat) (f : value) :
  i < 10 -> findings !! i = Some f ->
  ingest ids findings prev !! i = Some (mkThreat (ids i) f).
Proof.
  intros Hi Hf. unfold ingest, slice_first.
  rewrite lookup_take_lt by exact Hi.
  rewrite lookup_app_l
    by (rewrite newThreats_length; apply lookup_lt_Some in Hf; exact Hf).
  unfold newThreats. rewrite list_lookup_imap, Hf. reflexivity.
Qed.

Lemma ingest_lookup_old (ids : nat -> string) (findings : list value)
    (prev : list Threat.t) (j : nat) :
  length findings + j < 10 ->
  ingest ids findings prev !! (length findings + j) = prev !! j.
Proof.
  intros Hj. unfold ingest, slice_first.
  rewrite lookup_take_lt by exact Hj.
  rewrite lookup_app_r by (rewrite newThreats_length; lia).
  rewrite newThreats_length. f_equal. lia.
Qed.

(** C5, as stated, fails: the generated id is written before the spread
    of the finding, so a finding that has an id property keeps it.  A
    finding of the schema's shape with an id "t1" becomes a threat with id
    "t1", not with the token generated for it, and on a registry that
    holds a threat "t1" already the id is not even new. *)
Lemma handleDeepScan_keeps_finding_own_id :
  conformsFinding ownIdFinding = true
  /\ sampleIds 0 = "a1b2c3d4e"
  /\ threats (handleDeepScan_resume (Parsed [ownIdFinding] (Some (42 # 1)))
                sampleIds sampleState) !! 0%nat
       = Some (Threat.mk (VStr "t1") (VStr "leak") (VStr "high") (VStr "d") (VStr "r")
                         active)
  /\ VStr "t1" <> VStr (sampleIds 0)
  /\ threatIds sampleState = [VStr "t1"; VStr "t2"]
  /\ threatIds (handleDeepScan_resume (Parsed [ownIdFinding] (Some (42 # 1)))
                  sampleIds sampleState)
       = [VStr "t1"; VStr "t1"; VStr "t2"].
Proof. repeat split. discriminate. Qed.

(** C5, amended: a successful scan turns the finding at index [i],
    whatever JSON value it is, into a threat with status active and the
    finding's type, severity, description and remediation; the id is the
    token generated for it, unless the finding has an id property of its
    own, which is kept.  The new threats come first, in the oracle's
    order, the earlier registry follows, and the whole is cut to its
    first 10 entries, whatever their status.  The registry of a dashboard
    reached from the initial one never holds more than 10 threats. *)
Theorem handleDeepScan_ingestion :
  (forall (findings : list value) (score : option Q) (ids : nat -> string) (s : State),
      length (threats (handleDeepScan_resume (Parsed findings score) ids s))
        = Nat.min 10 (length findings + length (threats s))
      /\ (forall (i : nat) (f : value), i < 10 -> findings !! i = Some f ->
            exists t : Threat.t,
              threats (handleDeepScan_resume (Parsed findings score) ids s) !! i = Some t
              /\ Threat.status t = active
              /\ Threat.type t = field f "type"
              /\ Threat.severity t = field f "severity"
              /\ Threat.description t = field f "description"
              /\ Threat.remediation t = field f "remediation"
              /\ (own f "id" = None -> Threat.id t = VStr (ids i))
              /\ (forall v, own f "id" = Some v -> Threat.id t = v))
      /\ (forall j : nat, length findings + j < 10 ->
            threats (handleDeepScan_resume (Parsed findings score) ids s)
              !! (length findings + j)
              = threats s !! j)
      /\ length (threats (handleDeepScan_resume (Parsed findings score) ids s)) <= 10)
  /\ (forall (fs : list Finding.t) (score : option Q) (ids : nat -> string) (s : State)
             (i : nat) (f : Finding.t),
      i < 10 -> fs !! i = Some f ->
      threats (handleDeepScan_resume (Parsed (map Finding.to_value fs) score) ids s) !! i
        = Some (threatOf (ids i) f))
  /\ (forall (es : list Event) (w : World),
      run initialWorld es = Some w -> length (threats (app w)) <= 10).
Proof.
  split; [| split].
  - intros findings score ids s. simpl. split; [| split; [| split]].
    + apply ingest_length.
    + intros i f Hi Hf. exists (mkThreat (ids i) f).
      split; [apply ingest_lookup_new; assumption |].
      unfold mkThreat. simpl. repeat split.
      * intros ->. reflexivity.
      * intros v ->. reflexivity.
    + intros j Hj. apply ingest_lookup_old. exact Hj.
    + rewrite ingest_length. lia.
  - intros fs score ids s i f Hi Hf. simpl.
    rewrite (ingest_lookup_new ids (map Finding.to_value fs) (threats s) i
               (Finding.to_value f) Hi)
      by (rewrite list_lookup_fmap, Hf; reflexivity).
    reflexivity.
  - intros es w H.
    apply (run_consistent es initialWorld w initialWorld_consistent H).
Qed.

Lemma handleDeepScan_ingestion_witness :
  threats (handleDeepScan_resume (Parsed (map Finding.to_value [sampleFinding]) (Some (42 # 1)))
             sampleIds scanningState) !! 0%nat
    = Some (threatOf "a1b2c3d4e" sampleFinding)
  /\ exists t : Threat.t,
       threats (handleDeepScan_resume (Parsed [ownIdFinding] (Some (42 # 1)))
                  sampleIds sampleState) !! 0%nat = Some t
       /\ Threat.status t = active /\ Threat.id t = VStr "t1".
Proof.
  split.
  - apply (proj1 (proj2 handleDeepScan_ingestion) [sampleFinding] (Some (42 # 1))
             sampleIds scanningState 0%nat sampleFinding).
    + lia.
    + reflexivity.
  - destruct (proj1 handleDeepScan_ingestion [ownIdFinding] (Some (42 # 1))
                sampleIds sampleState) as (_ & H & _).
    destruct (H 0%nat ownIdFinding) as (t & Ht & Hst & _ & _ & _ & _ & _ & Hid).
    + lia.
    + reflexivity.
    + exists t. split; [exact Ht |]. split; [exact Hst |].
      apply Hid. reflexivity.
Defined.

(** C6: [handleDeepScan] called while scanning returns at once: no
    request is sent and the state is the same.  When the oracle settles,
    whatever the outcome, scanning is reset.  On every dashboard reached
    from the initial one at most one request is pending, and one is
    pending exactly when scanning is set. *)
Theorem handleDeepScan_exclusive :
  (forall s : State, isScanning s = true -> handleDeepScan_call s = (s, None))
  /\ (forall w : World, isScanning (app w) = true -> step w StartScan = Some w)
  /\ (forall (o : Outcome) (ids : nat -> string) (s : State),
        isScanning (handleDeepScan_resume o ids s) = false)
  /\ (forall (es : list Event) (w : World),
        run initialWorld es = Some w ->
        pending w <= 1 /\ (pending w = 1 <-> isScanning (app w) = true)).
Proof.
  split; [| split; [| split]].
  - intros s H. unfold handleDeepScan_call. rewrite H. reflexivity.
  - intros [s p rs] H. simpl in *. unfold handleDeepScan_call. rewrite H.
    reflexivity.
  - intros o ids s. reflexivity.
  - intros es w H.
    destruct (run_consistent es initialWorld w initialWorld_consistent H) as [Hp _].
    rewrite Hp. destruct (isScanning (app w)); split; try lia;
      split; intros; congruence.
Qed.

Lemma handleDeepScan_exclusive_witness :
  handleDeepScan_call scanningState = (scanningState, None)
  /\ pending (mkWorld scanningState 1 [buildRequest initialState]) <= 1.
Proof.
  split.
  - apply (proj1 handleDeepScan_exclusive scanningState). reflexivity.
  - apply (proj2 (proj2 (proj2 handleDeepScan_exclusive)) [StartScan; StartScan]).
    reflexivity.
Defined.

(** ** Log level *)

Lemma gt_true (x y : Q) : gt x y = true <-> (y < x)%Q.
Proof.
  unfold gt. rewrite negb_true_iff, <- not_true_iff_false, Qle_bool_iff.
  split; [apply Qnot_le_lt | apply Qlt_not_le].
Qed.

Lemma gt_false (x y : Q) : gt x y = false <-> (x <= y)%Q.
Proof. unfold gt. rewrite negb_false_iff. apply Qle_bool_iff. Qed.

(** C7, as stated, fails: the level expression calls [Math.random()]
    twice.  With a first draw of 0.5 and a second of 0.85 the entry is a
    warning, where the single-draw rule on 0.5 gives info; of the 100
    equally likely pairs of draws on a 10 x 10 grid, 10 give error, 18
    warning and 72 info. *)
Lemma drawLevel_is_not_single_draw :
  drawLevel (1 # 2) (17 # 20) = warning
  /\ specLevel (1 # 2) = info
  /\ length (list_prod (midpoints 10) (midpoints 10)) = 100
  /\ countLevel error 10 = 10
  /\ countLevel warning 10 = 18
  /\ countLevel info 10 = 72.
Proof. repeat split; vm_compute; reflexivity. Qed.

(** C7, amended: the level of a tick's entry is decided by two draws
    [u1], [u2]: error when [u1 > 0.9]; otherwise warning when [u2 > 0.8];
    otherwise info; never security.  (For independent uniform draws:
    P(error) = 0.10, P(warning) = 0.9 * 0.2 = 0.18, P(info) = 0.72.) *)
Lemma drawLevel_cases (u1 u2 : Q) :
  (9 # 10 < u1 /\ drawLevel u1 u2 = error)%Q
  \/ (u1 <= 9 # 10 /\ 8 # 10 < u2 /\ drawLevel u1 u2 = warning)%Q
  \/ (u1 <= 9 # 10 /\ u2 <= 8 # 10 /\ drawLevel u1 u2 = info)%Q.
Proof.
  unfold drawLevel.
  destruct (gt u1 (9 # 10)) eqn:E1; [| destruct (gt u2 (8 # 10)) eqn:E2].
  - left. apply gt_true in E1. auto.
  - right; left. apply gt_false in E1. apply gt_true in E2. auto.
  - right; right. apply gt_false in E1. apply gt_false in E2. auto.
Qed.

(** Closes a goal whose hypotheses say both [x < y] and [y <= x]. *)
Ltac order_clash :=
  exfalso;
  match goal with
  | A : (?x < ?y)%Q, B : (?y <= ?x)%Q |- _ => exact (Qlt_not_le x y A B)
  end.

Lemma telemetryTick_last_entry (d : TickInput) (s : State) :
  last (logs (telemetryTick d s)) = Some (newLog d).
Proof. simpl. apply last_snoc. Qed.

Theorem drawLevel_two_draws (u1 u2 : Q) :
  (drawLevel u1 u2 = error <-> (9 # 10 < u1)%Q)
  /\ (drawLevel u1 u2 = warning <-> (u1 <= 9 # 10)%Q /\ (8 # 10 < u2)%Q)
  /\ (drawLevel u1 u2 = info <-> (u1 <= 9 # 10)%Q /\ (u2 <= 8 # 10)%Q)
  /\ drawLevel u1 u2 <> security
  /\ (forall (d : TickInput) (s : State),
        tick_level1 d = u1 -> tick_level2 d = u2 ->
        exists e, last (logs (telemetryTick d s)) = Some e
                  /\ LogEntry.level e = drawLevel u1 u2).
Proof.
  split; [| split; [| split; [| split]]].
  - destruct (drawLevel_cases u1 u2) as [[H ->] | [(H & _ & ->) | (H & _ & ->)]];
      split; intros H'; try discriminate; try assumption; try reflexivity;
      order_clash.
  - destruct (drawLevel_cases u1 u2) as [[H ->] | [(H & K & ->) | (H & K & ->)]];
      split; try (intros [H1 H2]); try (intros H'); try discriminate; auto;
      order_clash.
  - destruct (drawLevel_cases u1 u2) as [[H ->] | [(H & K & ->) | (H & K & ->)]];
      split; try (intros [H1 H2]); try (intros H'); try discriminate; auto;
      order_clash.
  - destruct (drawLevel_cases u1 u2) as [[_ ->] | [(_ & _ & ->) | (_ & _ & ->)]];
      discriminate.
  - intros d s <- <-. exists (newLog d).
    split; [apply telemetryTick_last_entry | reflexivity].
Qed.

Lemma drawLevel_two_draws_witness : drawLevel (1 # 2) (17 # 20) = warning.
Proof.
  apply (proj1 (proj2 (drawLevel_two_draws (1 # 2) (17 # 20)))).
  split; [discriminate | reflexivity].
Defined.

(** ** Ids *)

Lemma threatIds_new (ids : nat -> string) (fs : list Finding.t) (i : nat) (v : value) :
  map Threat.id (newThreats ids (map Finding.to_value fs)) !! i = Some v ->
  i < length fs /\ v = VStr (ids i).
Proof.
  intros H. rewrite list_lookup_fmap in H.
  destruct (fs !! i) as [f |] eqn:E.
  - rewrite (newThreats_lookup ids fs i f E) in H. simpl in H.
    injection H as <-. split; [| reflexivity].
    apply lookup_lt_Some in E. exact E.
  - apply lookup_ge_None in E.
    rewrite lookup_ge_None_2 in H; [discriminate |].
    rewrite newThreats_length, length_map. exact E.
Qed.

Lemma threatIds_new_NoDup (ids : nat -> string) (fs : list Finding.t) :
  (forall i j : nat, i < j < length fs -> ids i <> ids j) ->
  NoDup (map Threat.id (newThreats ids (map Finding.to_value fs))).
Proof.
  intros Hd. apply NoDup_alt. intros i j v Hi Hj.
  apply threatIds_new in Hi as [Hi ->]. apply threatIds_new in Hj as [Hj Hv].
  injection Hv as Hv.
  destruct (Nat.lt_trichotomy i j) as [Hlt | [-> | Hlt]]; [| reflexivity |].
  - exfalso. apply (Hd i j); [lia | exact Hv].
  - exfalso. apply (Hd j i); [lia | symmetry; exact Hv].
Qed.

Lemma newThreats_ids (ids : nat -> string) (findings : list value) :
  map Threat.id (newThreats ids findings) = insertedThreatIds ids findings.
Proof.
  unfold newThreats, insertedThreatIds. apply list_eq. intros i.
  rewrite list_lookup_fmap, !list_lookup_imap.
  destruct (findings !! i); reflexivity.
Qed.

Lemma NoDup_snoc_iff {A : Type} (l : list A) (x : A) :
  NoDup (l ++ [x]) <-> NoDup l /\ x ∉ l.
Proof.
  rewrite NoDup_app. split.
  - intros (Hl & Hx & _). split; [exact Hl |].
    intros Hin. apply (Hx _ Hin). left.
  - intros [Hl Hx]. split; [exact Hl |]. split.
    + intros y Hin Hy. apply list_elem_of_singleton in Hy as ->. auto.
    + apply NoDup_singleton.
Qed.

(** C8, as stated, fails on all three insertions: nothing checks an id
    against the collection.  Patching the same threat id twice stores two
    audit entries with the id "patch-t1"; two ticks for which the random
    source yields the same token store two entries with that token; and a
    finding that carries the id "t1" is inserted with that id into a
    registry that holds a threat "t1". *)
Lemma patchThreat_twice_same_log_id :
  logIds (patchThreat "t1" "12:00:05" sampleState) = ["patch-t1"]
  /\ LogEntry.id (patchLog "t1" "12:00:09") = "patch-t1"
  /\ logIds (patchThreat "t1" "12:00:09" (patchThreat "t1" "12:00:05" sampleState))
       = ["patch-t1"; "patch-t1"]
  /\ ~ NoDup (logIds (patchThreat "t1" "12:00:09"
                        (patchThreat "t1" "12:00:05" sampleState)))
  /\ logIds (telemetryTick sampleTick initialState) = ["k3x9q0z1a"]
  /\ tick_id sampleTick = "k3x9q0z1a"
  /\ logIds (telemetryTick sampleTick (telemetryTick sampleTick initialState))
       = ["k3x9q0z1a"; "k3x9q0z1a"]
  /\ threatIds sampleState = [VStr "t1"; VStr "t2"]
  /\ conformsFinding ownIdFinding = true
  /\ threatIds (handleDeepScan_resume (Parsed [ownIdFinding] (Some (42 # 1)))
                  sampleIds sampleState)
       = [VStr "t1"; VStr "t1"; VStr "t2"].
Proof.
  repeat split. intros H. change (NoDup ["patch-t1"; "patch-t1"]) in H.
  apply NoDup_cons in H as [H _]. apply H. left.
Qed.

(** C8, amended: ids are not checked on insertion.  The id of a telemetry
    entry is the token of the random source, the id of an audit entry is
    "patch-" followed by the threat id, and the id of an ingested threat
    is the finding's own id property when it has one and the token of the
    random source otherwise.  A log entry keeps the ids of the store
    pairwise distinct exactly when the ids of the retained entries are
    distinct and its own is not among them; a scan keeps the ids of the
    registry pairwise distinct when they were distinct before and the
    inserted ids differ from each other and from those present. *)
Theorem inserted_ids_distinct_if_fresh :
  (forall (id now : string) (s : State),
      logIds (patchThreat id now s) = logIds s ++ ["patch-" +:+ id]
      /\ (NoDup (logIds (patchThreat id now s))
          <-> NoDup (logIds s) /\ ("patch-" +:+ id) ∉ logIds s))
  /\ (forall (d : TickInput) (s : State),
      last (logIds (telemetryTick d s)) = Some (tick_id d)
      /\ (NoDup (logIds s) -> tick_id d ∉ logIds s ->
          NoDup (logIds (telemetryTick d s)))
      /\ (NoDup (logIds (telemetryTick d s))
          <-> NoDup (map LogEntry.id (slice_last 49 (logs s)))
              /\ tick_id d ∉ map LogEntry.id (slice_last 49 (logs s))))
  /\ (forall (findings : list value) (score : option Q) (ids : nat -> string) (s : State),
      threatIds (handleDeepScan_resume (Parsed findings score) ids s)
        = slice_first 10 (insertedThreatIds ids findings ++ threatIds s)
      /\ (forall (i : nat) (f : value), findings !! i = Some f ->
            insertedThreatIds ids findings !! i
              = Some (match own f "id" with
                      | Some v => v
                      | None => VStr (ids i)
                      end))
      /\ (NoDup (threatIds s) ->
          NoDup (insertedThreatIds ids findings) ->
          (forall v, v ∈ insertedThreatIds ids findings -> v ∉ threatIds s) ->
          NoDup (threatIds (handleDeepScan_resume (Parsed findings score) ids s))))
  /\ (forall (fs : list Finding.t) (score : option Q) (ids : nat -> string) (s : State),
      NoDup (threatIds s) ->
      (forall i j : nat, i < j < length fs -> ids i <> ids j) ->
      (forall i : nat, i < length fs -> VStr (ids i) ∉ threatIds s) ->
      NoDup (threatIds (handleDeepScan_resume
                          (Parsed (map Finding.to_value fs) score) ids s))).
Proof.
  split; [| split; [| split]].
  - intros id now s. unfold logIds. simpl. rewrite map_app. simpl.
    split; [reflexivity |]. apply NoDup_snoc_iff.
  - intros d s. unfold logIds. simpl. rewrite map_app. simpl.
    split; [apply last_snoc |]. split; [| apply NoDup_snoc_iff].
    intros Hl Hx.
    assert (Hsub : sublist (map LogEntry.id (slice_last 49 (logs s)))
                           (map LogEntry.id (logs s))).
    { apply fmap_sublist. apply sublist_drop. }
    apply NoDup_snoc_iff. split; [eapply sublist_NoDup; eassumption |].
    intros Hin. apply Hx. eapply elem_of_sublist; eassumption.
  - intros findings score ids s.
    assert (E : threatIds (handleDeepScan_resume (Parsed findings score) ids s)
                = slice_first 10 (insertedThreatIds ids findings ++ threatIds s)).
    { change (map Threat.id (take 10 (newThreats ids findings ++ threats s))
              = take 10 (insertedThreatIds ids findings ++ map Threat.id (threats s))).
      rewrite <- newThreats_ids, <- map_app. apply fmap_take. }
    split; [exact E |]. split.
    + intros i f Hf. unfold insertedThreatIds.
      rewrite list_lookup_imap, Hf. simpl. destruct (own f "id"); reflexivity.
    + intros Hl Hn Hx. rewrite E. unfold slice_first.
      eapply sublist_NoDup; [| apply sublist_take].
      apply NoDup_app. split; [exact Hn |]. split; [exact Hx | exact Hl].
  - intros fs score ids s Hl Hd Hx. unfold threatIds. simpl.
    unfold ingest, slice_first.
    eapply sublist_NoDup; [| apply fmap_sublist; apply sublist_take].
    rewrite map_app. apply NoDup_app. split; [| split].
    + apply threatIds_new_NoDup. exact Hd.
    + intros v Hin Hin'. apply list_elem_of_lookup in Hin as [i Hi].
      apply threatIds_new in Hi as [Hi ->]. apply (Hx i Hi). exact Hin'.
    + exact Hl.
Qed.

Lemma inserted_ids_distinct_if_fresh_witness :
  NoDup (logIds (telemetryTick sampleTick initialState))
  /\ NoDup (logIds (patchThreat "t1" "12:00:05" sampleState))
  /\ NoDup (threatIds (handleDeepScan_resume (Parsed [VNull] None) sampleIds sampleState)).
Proof.
  split; [| split].
  - apply (proj1 (proj2 (proj1 (proj2 inserted_ids_distinct_if_fresh)
                           sampleTick initialState))).
    + apply NoDup_nil_2.
    + apply not_elem_of_nil.
  - apply (proj1 inserted_ids_distinct_if_fresh "t1" "12:00:05" sampleState).
    split; [apply NoDup_nil_2 | apply not_elem_of_nil].
  - apply (proj2 (proj2 (proj1 (proj2 (proj2 inserted_ids_distinct_if_fresh))
                           [VNull] None sampleIds sampleState))).
    + apply NoDup_cons. split.
      * intros H. apply list_elem_of_singleton in H. discriminate.
      * apply NoDup_singleton.
    + apply NoDup_singleton.
    + intros v Hv. apply list_elem_of_singleton in Hv as ->.
      intros H. apply elem_of_cons in H as [H | H]; [discriminate |].
      apply list_elem_of_singleton in H. discriminate.
Defined.

(** ** Scenarios *)

Example scan_request_of_one_entry :
  handleDeepScan_call oneLogState
  = (setTerminalText
       ("Initializing neural scan... " +:+ newline +:+
        "Accessing application bytecode... " +:+ newline +:+
        "Analyzing outbound patterns...")
       (setIsScanning true oneLogState),
     Some (mkRequest "[error] NetStack: GET /api/v1/user 200 OK" "ACTIVE")).
Proof. reflexivity. Qed.

Example scan_success_scenario :
  run (mkWorld oneLogState 0 [])
      [StartScan;
       OracleSettles (Parsed [Finding.to_value sampleFinding] (Some (42 # 1))) sampleIds]
  = Some (mkWorld
            (mkState [netStackEntry] [threatOf "a1b2c3d4e" sampleFinding]
                     (SystemMetrics.mk 12 45 8 (Some (42 # 1))) true false
                     "Scan Complete. Vulnerabilities cataloged.")
            0 [buildRequest oneLogState]).
Proof. reflexivity. Qed.

Example scan_failure_scenario :
  run (mkWorld oneLogState 0 []) [StartScan; OracleSettles Rejected sampleIds]
  = Some (mkWorld
            (mkState [netStackEntry] [] (SystemMetrics.mk 12 45 8 (Some (2 # 1)))
                     true false interrupted)
            0 [buildRequest oneLogState]).
Proof. reflexivity. Qed.

Example patch_scenario :
  patchThreat "t1" "12:00:05" oneThreatState
  = mkState [patchLog "t1" "12:00:05"] [Threat.with_status patched threatA]
            (SystemMetrics.mk 12 45 8 (Some (35 # 1))) true false "".
Proof. reflexivity. Qed.

Example tick_scenario :
  logs (telemetryTick sampleTick initialState)
  = [LogEntry.mk "k3x9q0z1a" "12:00:00" info
                 "Cache invalidated for key: session_4x9" "DataLayer"].
Proof. reflexivity. Qed.

(** * Further properties of the code *)

(** ** Catalog picks *)

Lemma pick_index (u : Q) (n : nat) :
  unitDraw u -> 0 < n ->
  Z.to_nat (Qfloor (u * inject_Z (Z.of_nat n))) < n.
Proof.
  intros [H0 H1] Hn.
  assert (Hpos : (0 < inject_Z (Z.of_nat n))%Q).
  { change (inject_Z 0 < inject_Z (Z.of_nat n))%Q. rewrite <- Zlt_Qlt. lia. }
  assert (Hlo : (0 <= Qfloor (u * inject_Z (Z.of_nat n)))%Z).
  { change 0%Z with (Qfloor 0). apply Qfloor_resp_le.
    apply Qmult_le_0_compat; [exact H0 | apply Qlt_le_weak; exact Hpos]. }
  assert (Hhi : (Qfloor (u * inject_Z (Z.of_nat n)) < Z.of_nat n)%Z).
  { rewrite Zlt_Qlt. eapply Qle_lt_trans; [apply Qfloor_le |].
    rewrite <- (Qmult_1_l (inject_Z (Z.of_nat n))) at 2.
    apply Qmult_lt_compat_r; assumption. }
  lia.
Qed.

(** X1: for every draw of [Math.random()] (a number in [0,1)) the index
    [Math.floor(u * a.length)] is in range, so the message of a tick is one
    of the nine of the catalog and its source one of [LOG_SOURCES]; a pick
    is never [undefined]. *)
Theorem tick_picks_from_catalogs (d : TickInput) :
  unitDraw (tick_message d) -> unitDraw (tick_source d) ->
  LogEntry.message (newLog d) ∈ msgs
  /\ LogEntry.source (newLog d) ∈ LOG_SOURCES
  /\ LogEntry.message (newLog d) <> ""
  /\ LogEntry.source (newLog d) <> "".
Proof.
  intros Hm Hs.
  assert (Hin : forall u a, unitDraw u -> 0 < length a -> pick u a ∈ a).
  { intros u a Hu Ha. apply list_elem_of_In. apply nth_In.
    apply pick_index; assumption. }
  assert (H1 : LogEntry.message (newLog d) ∈ msgs)
    by (apply Hin; [exact Hm | simpl; lia]).
  assert (H2 : LogEntry.source (newLog d) ∈ LOG_SOURCES)
    by (apply Hin; [exact Hs | simpl; lia]).
  split; [exact H1 |]. split; [exact H2 |]. split.
  - intros E. rewrite E in H1. unfold msgs in H1.
    repeat (apply elem_of_cons in H1 as [H1 | H1]; [discriminate |]).
    apply elem_of_nil in H1. exact H1.
  - intros E. rewrite E in H2. unfold LOG_SOURCES in H2.
    repeat (apply elem_of_cons in H2 as [H2 | H2]; [discriminate |]).
    apply elem_of_nil in H2. exact H2.
Qed.

Lemma tick_picks_from_catalogs_witness :
  LogEntry.message (newLog sampleTick) ∈ msgs.
Proof.
  apply (tick_picks_from_catalogs sampleTick); split; simpl;
    first [discriminate | reflexivity].
Defined.

(** ** Random walk of the gauges *)

Lemma clamp_near (prev delta h : Q) :
  inRange prev -> (- h <= delta <= h)%Q ->
  (- h <= Qmin 100 (Qmax 0 (prev + delta)) - prev <= h)%Q.
Proof.
  intros [H0 H100] [Hl Hh].
  destruct (Q.max_spec 0 (prev + delta)) as [[Ha Ea] | [Ha Ea]];
    destruct (Q.min_spec 100 (Qmax 0 (prev + delta))) as [[Hb Eb] | [Hb Eb]];
    rewrite Eb; rewrite ?Ea in *; split; lra.
Qed.

(** X2: one tick moves a gauge that is in range by at most half its scale:
    cpu by at most 2.5, memory by at most 1, network by at most 5. *)
Theorem telemetryTick_step_bounded (d : TickInput) (s : State) :
  gaugesInRange (metrics s) ->
  unitDraw (tick_cpu d) -> unitDraw (tick_memory d) -> unitDraw (tick_network d) ->
  (- (5 # 2) <= SystemMetrics.cpu (metrics (telemetryTick d s))
                - SystemMetrics.cpu (metrics s) <= 5 # 2)%Q
  /\ (- 1 <= SystemMetrics.memory (metrics (telemetryTick d s))
             - SystemMetrics.memory (metrics s) <= 1)%Q
  /\ (- 5 <= SystemMetrics.network (metrics (telemetryTick d s))
             - SystemMetrics.network (metrics s) <= 5)%Q.
Proof.
  intros (Hc & Hm & Hn) [Hc0 Hc1] [Hm0 Hm1] [Hn0 Hn1]. simpl. unfold fluctuate.
  split; [| split].
  - apply (clamp_near _ _ (5 # 2)); [assumption | split; lra].
  - apply (clamp_near _ _ 1); [assumption | split; lra].
  - apply (clamp_near _ _ 5); [assumption | split; lra].
Qed.

Lemma telemetryTick_step_bounded_witness :
  (- (5 # 2) <= SystemMetrics.cpu (metrics (telemetryTick sampleTick initialState))
                - SystemMetrics.cpu (metrics initialState) <= 5 # 2)%Q.
Proof.
  apply (telemetryTick_step_bounded sampleTick initialState).
  - repeat split; discriminate.
  - split; [discriminate | reflexivity].
  - split; [discriminate | reflexivity].
  - split; [discriminate | reflexivity].
Defined.

(** ** Invariants of runs *)

Section RunInvariant.
Variable P : World -> Prop.
Hypothesis P_step : forall w e w', P w -> step w e = Some w' -> P w'.

Lemma run_invariant (es : list Event) (w w' : World) :
  P w -> run w es = Some w' -> P w'.
Proof.
  revert w. induction es as [| e es IH]; intros w Hw; simpl.
  - intros [= <-]. exact Hw.
  - destruct (step w e) as [w1 |] eqn:E; [| discriminate].
    apply IH. eapply P_step; eassumption.
Qed.
End RunInvariant.

(** Splits a step into the seven ways a handler can run. *)
Ltac step_cases e Hs :=
  destruct e as [?d | | ?o ?ids | ?id ?now | |]; simpl in Hs;
  [ | unfold handleDeepScan_call in Hs;
      match type of Hs with
      | context [if ?b then _ else _] => destruct b eqn:?Escan
      end
    | match type of Hs with
      | match ?k with O => _ | S _ => _ end = _ =>
          destruct k as [| ?n] eqn:?Epend; [discriminate |]
      end
    | | | ];
  injection Hs as <-; simpl.

(** X3: on every dashboard reached from the initial one the cpu, memory
    and network gauges lie in [0,100], whatever the oracle answered and
    whatever was drawn. *)
Theorem reachable_gauges_in_range (es : list Event) (w : World) :
  run initialWorld es = Some w -> gaugesInRange (metrics (app w)).
Proof.
  apply (run_invariant (fun w => gaugesInRange (metrics (app w)))).
  - intros w0 e w' H Hs. destruct w0 as [s p rs]. simpl in H.
    step_cases e Hs; try exact H.
    + repeat split; apply fluctuate_inRange.
    + destruct (scanTry o ids s) as [s' |] eqn:E; [| exact H].
      destruct o; simpl in E; try discriminate. injection E as <-. exact H.
  - repeat split; discriminate.
Qed.

Lemma reachable_gauges_in_range_witness :
  gaugesInRange (metrics (telemetryTick sampleTick initialState)).
Proof.
  apply (reachable_gauges_in_range [Tick sampleTick]
           (mkWorld (telemetryTick sampleTick initialState) 0 [])).
  reflexivity.
Defined.

Lemma threatLevel_step (w w' : World) (e : Event) :
  scoreOk e = true -> threatLevelInRange (metrics (app w)) ->
  step w e = Some w' -> threatLevelInRange (metrics (app w')).
Proof.
  intros Hok H Hs. destruct w as [s p rs]. simpl in H.
  step_cases e Hs; try exact H.
  - destruct o as [| | score | fs [q |]]; simpl in *; try exact H; [| discriminate].
    apply andb_prop in Hok as [H0 H1].
    exists q. split; [reflexivity |].
    split; apply Qle_bool_iff; assumption.
  - destruct H as (q & Hq & Hr). rewrite Hq. simpl.
    eexists. split; [reflexivity |].
    eapply decayThreatLevel_range; [exact Hr | reflexivity].
Qed.

(** X4: when every answer that the oracle gave with a findings array
    carried a numeric score in [0,100], threatLevel is a number in
    [0,100] on the dashboard reached: the score is the only way out of
    the range. *)
Theorem threatLevel_in_range_if_scores_are (es : list Event) (w : World) :
  forallb scoreOk es = true ->
  run initialWorld es = Some w ->
  threatLevelInRange (metrics (app w)).
Proof.
  assert (Hinit : threatLevelInRange (metrics (app initialWorld))).
  { exists (2 # 1). split; [reflexivity | split; discriminate]. }
  revert Hinit. generalize initialWorld as w0.
  induction es as [| e es IH]; intros w0 H0 Hok; simpl.
  - intros [= <-]. exact H0.
  - simpl in Hok. apply andb_prop in Hok as [He Hes].
    destruct (step w0 e) as [w1 |] eqn:E; [| discriminate].
    apply IH; [| exact Hes]. eapply threatLevel_step; eassumption.
Qed.

Lemma threatLevel_in_range_if_scores_are_witness :
  threatLevelInRange
    (metrics (handleDeepScan_resume (Parsed [] (Some (42 # 1))) sampleIds scanningState)).
Proof.
  apply (threatLevel_in_range_if_scores_are
           [StartScan; OracleSettles (Parsed [] (Some (42 # 1))) sampleIds]
           (mkWorld (handleDeepScan_resume (Parsed [] (Some (42 # 1))) sampleIds
                       scanningState) 0 [buildRequest initialState])).
  - reflexivity.
  - reflexivity.
Defined.

Lemma newThreats_active (ids : nat -> string) (findings : list value) :
  Forall (fun t => Threat.status t = active) (newThreats ids findings).
Proof.
  apply Forall_forall. intros t Ht.
  apply elem_of_lookup_imap in Ht as (i & f & -> & _). reflexivity.
Qed.

(** X5: the status analyzing never occurs: every threat of a dashboard
    reached from the initial one is active or patched, so the APPLY_PATCH
    button is rendered for exactly the threats that are not patched. *)
Theorem reachable_statuses (es : list Event) (w : World) :
  run initialWorld es = Some w ->
  Forall (fun t => Threat.status t <> analyzing
                   /\ (patchOffered t = true <-> Threat.status t <> patched))
         (threats (app w)).
Proof.
  assert (Hiff : forall t, Threat.status t <> analyzing ->
            Threat.status t <> analyzing
            /\ (patchOffered t = true <-> Threat.status t <> patched)).
  { intros t Ht. split; [exact Ht |]. unfold patchOffered.
    destruct (Threat.status t); split; congruence. }
  intros H. eapply Forall_impl; [| intros t Ht; apply Hiff; exact Ht].
  revert H.
  apply (run_invariant
           (fun w => Forall (fun t => Threat.status t <> analyzing) (threats (app w)))).
  - intros w0 e w' H Hs. destruct w0 as [s p rs]. simpl in H.
    step_cases e Hs; try exact H.
    + destruct o as [| | score | fs score]; simpl; try exact H.
      unfold ingest, slice_first. apply Forall_take, Forall_app. split; [| exact H].
      eapply Forall_impl; [apply newThreats_active |].
      intros t Ht. simpl in Ht. congruence.
    + apply Forall_fmap. eapply Forall_impl; [exact H |].
      intros t Ht. simpl.
      pose proof (patchOne_spec id t) as (_ & _ & _ & _ & _ & Hst).
      rewrite Hst. destruct (strict_eq_str (Threat.id t) id); congruence.
    + apply Forall_forall. intros t Ht.
      apply list_elem_of_filter in Ht as [_ Ht].
      rewrite Forall_forall in H. apply H. exact Ht.
  - constructor.
Qed.

Lemma reachable_statuses_witness :
  Forall (fun t => Threat.status t <> analyzing
                   /\ (patchOffered t = true <-> Threat.status t <> patched))
         (threats (handleDeepScan_resume
                     (Parsed [Finding.to_value sampleFinding] (Some (42 # 1)))
                     sampleIds scanningState)).
Proof.
  apply (reachable_statuses
           [StartScan;
            OracleSettles (Parsed [Finding.to_value sampleFinding] (Some (42 # 1)))
                          sampleIds]
           (mkWorld (handleDeepScan_resume
                       (Parsed [Finding.to_value sampleFinding] (Some (42 # 1)))
                       sampleIds scanningState) 0 [buildRequest initialState])).
  reflexivity.
Defined.

(** ** Log store along a run *)

Lemma step_logs (w w' : World) (e : Event) :
  step w e = Some w' ->
  logs (app w') =
    match e with
    | Tick d => slice_last 49 (logs (app w)) ++ [newLog d]
    | PatchThreat id now => logs (app w) ++ [patchLog id now]
    | _ => logs (app w)
    end.
Proof.
  intros Hs. step_cases e Hs; try reflexivity.
  destruct (scanTry o ids (app w)) as [s' |] eqn:E; [| reflexivity].
  destruct o; simpl in E; try discriminate. injection E as <-. reflexivity.
Qed.

Lemma run_logs_bound (es : list Event) (w w' : World) (n : nat) :
  length (logs (app w)) <= 50 + n ->
  run w es = Some w' ->
  length (logs (app w')) <= 50 + auditsSinceTick n es.
Proof.
  revert w n. induction es as [| e es IH]; intros w n Hn; simpl.
  - intros [= <-]. exact Hn.
  - destruct (step w e) as [w1 |] eqn:E; [| discriminate].
    apply IH. rewrite (step_logs w w1 e E).
    destruct e; try exact Hn.
    + rewrite length_app, slice_last_length. cbn [length]. lia.
    + rewrite length_app. cbn [length]. lia.
Qed.

(** X6: the log store of a dashboard reached from the initial one holds
    at most 50 entries plus one per patch since the last telemetry tick;
    right after a tick it holds at most 50, however many patches came
    before. *)
Theorem log_store_overflow_bounded :
  (forall (es : list Event) (w : World),
      run initialWorld es = Some w ->
      length (logs (app w)) <= 50 + auditsSinceTick 0 es)
  /\ (forall (es : list Event) (d : TickInput) (w : World),
      run initialWorld (es ++ [Tick d]) = Some w ->
      length (logs (app w)) <= 50).
Proof.
  split.
  - intros es w H. apply (run_logs_bound es initialWorld w 0); [simpl; lia | exact H].
  - intros es d w H.
    apply (run_logs_bound (es ++ [Tick d]) initialWorld w 0) in H; [| simpl; lia].
    unfold auditsSinceTick in H. rewrite fold_left_app in H. simpl in H. lia.
Qed.

Lemma log_store_overflow_bounded_witness :
  length (logs (telemetryTick sampleTick (patchThreat "t1" "12:00:05" initialState))) <= 50.
Proof.
  apply (proj2 log_store_overflow_bounded [PatchThreat "t1" "12:00:05"] sampleTick
           (mkWorld (telemetryTick sampleTick (patchThreat "t1" "12:00:05" initialState))
                    0 [])).
  reflexivity.
Defined.

(** X7: the log store is append-only with eviction from the front: after
    any run it is a suffix of the earlier store followed by the entries
    that the run's ticks and patches produced, in the order they were
    produced; no entry is changed, reordered or dropped from the middle. *)
Theorem log_store_append_only (es : list Event) (w w' : World) :
  run w es = Some w' ->
  exists k : nat, logs (app w') = drop k (logs (app w) ++ entriesOf es).
Proof.
  revert w. induction es as [| e es IH]; intros w; simpl.
  - intros [= <-]. exists 0. rewrite app_nil_r. reflexivity.
  - destruct (step w e) as [w1 |] eqn:E; [| discriminate].
    intros H. apply IH in H as (k & Hl).
    rewrite Hl, (step_logs w w1 e E).
    destruct e; try (exists k; reflexivity).
    + exists (length (logs (app w)) - 49 + k).
      rewrite <- drop_drop. f_equal. unfold slice_last.
      rewrite app_assoc, (drop_app_le (logs (app w) ++ [newLog d])),
        (drop_app_le (logs (app w))) by (rewrite ?length_app; lia).
      reflexivity.
    + exists k. rewrite <- app_assoc. reflexivity.
Qed.

Lemma log_store_append_only_witness :
  exists k : nat,
    logs (telemetryTick sampleTick oneLogState)
    = drop k (logs oneLogState ++ entriesOf [Tick sampleTick]).
Proof.
  apply (log_store_append_only [Tick sampleTick] (mkWorld oneLogState 0 [])
           (mkWorld (telemetryTick sampleTick oneLogState) 0 [])).
  reflexivity.
Defined.

Lemma newLog_not_security (d : TickInput) : LogEntry.level (newLog d) <> security.
Proof.
  simpl. unfold drawLevel.
  destruct (gt (tick_level1 d) (9 # 10)); [discriminate |].
  destruct (gt (tick_level2 d) (8 # 10)); discriminate.
Qed.

(** X8: on every dashboard reached from the initial one, the entries of
    level security are exactly the audit entries of [patchThreat]: an
    entry of level security has source LeakGuard, the fixed message and an
    id made of "patch-" and a threat id, and telemetry never produces
    one. *)
Theorem reachable_security_entries (es : list Event) (w : World) :
  run initialWorld es = Some w ->
  Forall (fun l => LogEntry.level l = security <-> isAuditEntry l) (logs (app w)).
Proof.
  apply (run_invariant
           (fun w => Forall (fun l => LogEntry.level l = security <-> isAuditEntry l)
                            (logs (app w)))).
  - intros w0 e w' H Hs. rewrite (step_logs w0 w' e Hs).
    destruct e; try exact H.
    + apply Forall_app. split; [apply Forall_drop; exact H |].
      apply Forall_singleton. split.
      * intros Hl. exfalso. apply (newLog_not_security d Hl).
      * intros (id & now & E). exfalso.
        apply (newLog_not_security d). rewrite E. reflexivity.
    + apply Forall_app. split; [exact H |].
      apply Forall_singleton. split; [| reflexivity].
      intros _. exists id, now. reflexivity.
  - constructor.
Qed.

Lemma reachable_security_entries_witness :
  Forall (fun l => LogEntry.level l = security <-> isAuditEntry l)
         (logs (patchThreat "t1" "12:00:05" initialState)).
Proof.
  apply (reachable_security_entries [PatchThreat "t1" "12:00:05"]
           (mkWorld (patchThreat "t1" "12:00:05" initialState) 0 [])).
  reflexivity.
Defined.

(** ** Registry operations *)

Lemma strict_eq_str_refl (id : string) : strict_eq_str (VStr id) id = true.
Proof. apply String.eqb_refl. Qed.

Lemma patchOne_unpatched (id : string) (t : Threat.t) :
  notPatched (patchOne id t) ->
  notPatched t /\ strict_eq_str (Threat.id t) id = false /\ patchOne id t = t.
Proof.
  unfold notPatched. pose proof (patchOne_spec id t) as (_ & _ & _ & _ & _ & Hst).
  rewrite Hst. destruct (strict_eq_str (Threat.id t) id) eqn:E; [congruence |].
  intros H. split; [exact H |]. split; [reflexivity |].
  apply patchOne_other. exact E.
Qed.

Lemma unpatched_patch_le (id : string) (l : list Threat.t) :
  length (unpatched (map (patchOne id) l)) <= length (unpatched l).
Proof.
  unfold unpatched. induction l as [| t l IH]; simpl; [lia |].
  destruct (decide (notPatched (patchOne id t))) as [H | H].
  - rewrite filter_cons_True by exact H.
    apply patchOne_unpatched in H as (H & _ & _).
    rewrite (filter_cons_True notPatched t l) by exact H. simpl. lia.
  - rewrite filter_cons_False by exact H.
    destruct (decide (notPatched t)) as [H' | H'].
    + rewrite (filter_cons_True notPatched t l) by exact H'. simpl. lia.
    + rewrite (filter_cons_False notPatched t l) by exact H'. exact IH.
Qed.

Lemma unpatched_patch_lt (id : string) (l : list Threat.t) (t : Threat.t) :
  t ∈ l -> Threat.id t = VStr id -> notPatched t ->
  length (unpatched (map (patchOne id) l)) < length (unpatched l).
Proof.
  intros Hin Hid Hst. induction Hin as [t l | t t' l Hin IH].
  - unfold unpatched. simpl.
    rewrite (filter_cons_True notPatched t l) by exact Hst.
    rewrite filter_cons_False.
    + pose proof (unpatched_patch_le id l) as Hle. unfold unpatched in Hle.
      simpl. lia.
    + intros H. apply patchOne_unpatched in H as (_ & H & _).
      rewrite Hid, strict_eq_str_refl in H. discriminate.
  - specialize (IH Hid Hst). unfold unpatched in *. simpl.
    destruct (decide (notPatched (patchOne id t'))) as [H | H].
    + rewrite filter_cons_True by exact H.
      apply patchOne_unpatched in H as (H & _ & _).
      rewrite (filter_cons_True notPatched t' l) by exact H. simpl. lia.
    + rewrite filter_cons_False by exact H.
      destruct (decide (notPatched t')) as [H' | H'].
      * rewrite (filter_cons_True notPatched t' l) by exact H'. simpl. lia.
      * rewrite (filter_cons_False notPatched t' l) by exact H'. exact IH.
Qed.

(** X9: [patchThreat] called with the id of a threat that is not patched
    (what the APPLY_PATCH button does) is never idle on the registry:
    afterwards every threat with that id is patched, and the number of
    threats that are not patched has gone down. *)
Theorem patchThreat_patches_active (id now : string) (s : State) (t : Threat.t) :
  t ∈ threats s -> Threat.id t = VStr id -> Threat.status t <> patched ->
  Forall (fun t' => Threat.id t' = VStr id -> Threat.status t' = patched)
         (threats (patchThreat id now s))
  /\ length (unpatched (threats (patchThreat id now s)))
       < length (unpatched (threats s))
  /\ nothingToPatch id s = false.
Proof.
  intros Hin Hid Hst. simpl. split; [| split].
  - apply Forall_fmap, Forall_forall. intros t0 _ E. simpl in *.
    pose proof (patchOne_spec id t0) as (Hi & _ & _ & _ & _ & Hs).
    rewrite Hi in E. rewrite Hs, E, strict_eq_str_refl. reflexivity.
  - apply (unpatched_patch_lt id (threats s) t); assumption.
  - apply not_true_is_false. intros H. unfold nothingToPatch in H.
    rewrite forallb_forall in H. apply list_elem_of_In in Hin.
    specialize (H t Hin). rewrite Hid, strict_eq_str_refl in H. simpl in H.
    unfold isPatched in H. destruct (Threat.status t); congruence.
Qed.

Lemma patchThreat_patches_active_witness :
  length (unpatched (threats (patchThreat "t1" "12:00:05" sampleState)))
    < length (unpatched (threats sampleState)).
Proof.
  apply (patchThreat_patches_active "t1" "12:00:05" sampleState threatA).
  - vm_compute. left.
  - reflexivity.
  - discriminate.
Defined.

(** X10: a patch followed by [clearPatched] removes from the registry
    every threat that carries the patched id, together with those that
    were patched before; the others stay, unchanged and in order. *)
Theorem clearPatched_after_patchThreat (id now : string) (s : State) :
  threats (clearPatched (patchThreat id now s))
    = filter (fun t => notPatched t /\ strict_eq_str (Threat.id t) id = false)
             (threats s)
  /\ Forall (fun t => strict_eq_str (Threat.id t) id = false)
            (threats (clearPatched (patchThreat id now s))).
Proof.
  assert (E : threats (clearPatched (patchThreat id now s))
              = filter (fun t => notPatched t /\ strict_eq_str (Threat.id t) id = false)
                       (threats s)).
  { simpl. induction (threats s) as [| t l IH]; [reflexivity |]. simpl.
    destruct (decide (notPatched (patchOne id t))) as [H | H].
    - rewrite (filter_cons_True _ (patchOne id t)) by exact H.
      apply patchOne_unpatched in H as (H1 & H2 & H3).
      rewrite (filter_cons_True _ t l) by (split; assumption).
      rewrite H3, IH. reflexivity.
    - rewrite (filter_cons_False _ (patchOne id t)) by exact H.
      rewrite (filter_cons_False _ t l); [exact IH |].
      intros [H1 H2]. apply H. rewrite patchOne_other by exact H2. exact H1. }
  split; [exact E |]. rewrite E.
  apply Forall_forall. intros t Ht. apply list_elem_of_filter in Ht. tauto.
Qed.

Lemma filter_fixpoint {A : Type} (P : A -> Prop) `{!forall x, Decision (P x)}
    (l : list A) :
  filter P l = l <-> Forall P l.
Proof.
  split.
  - intros E. rewrite <- E. apply Forall_forall. intros x Hx.
    apply list_elem_of_filter in Hx. tauto.
  - induction 1 as [| x l Hx _ IH]; [reflexivity |].
    rewrite filter_cons_True by exact Hx. f_equal. exact IH.
Qed.

(** X11: [clearPatched] changes the dashboard exactly when some threat is
    patched; applied twice it does what it does once, and it never makes
    the registry longer. *)
Theorem clearPatched_idempotent (s : State) :
  clearPatched (clearPatched s) = clearPatched s
  /\ (clearPatched s = s <-> Forall notPatched (threats s))
  /\ length (threats (clearPatched s)) <= length (threats s).
Proof.
  split; [| split].
  - unfold clearPatched, setThreats. simpl. f_equal.
    apply filter_fixpoint. apply Forall_forall. intros t Ht.
    apply list_elem_of_filter in Ht. tauto.
  - split.
    + intros E. apply (filter_fixpoint notPatched).
      change (threats (clearPatched s) = threats s). rewrite E. reflexivity.
    + intros H. apply (filter_fixpoint notPatched) in H.
      destruct s as [l ts m sh sc tt]. unfold clearPatched, setThreats. simpl in *.
      f_equal. exact H.
  - simpl. apply length_filter.
Qed.

Lemma clearPatched_idempotent_witness :
  clearPatched initialState = initialState.
Proof.
  apply (proj1 (proj2 (clearPatched_idempotent initialState))).
  constructor.
Defined.

(** ** Scan: edge cases of the response *)

(** X12: a response with an empty findings array leaves a registry of at
    most 10 threats as it is and only writes the score; a response with
    10 findings or more replaces the whole registry: no earlier threat
    stays, active or not. *)
Theorem handleDeepScan_empty_and_full (score : option Q) (ids : nat -> string) (s : State) :
  (length (threats s) <= 10 ->
     threats (handleDeepScan_resume (Parsed [] score) ids s) = threats s
     /\ SystemMetrics.threatLevel
          (metrics (handleDeepScan_resume (Parsed [] score) ids s)) = score
     /\ terminalText (handleDeepScan_resume (Parsed [] score) ids s) = scanCompleteText)
  /\ (forall findings : list value,
        10 <= length findings ->
        threats (handleDeepScan_resume (Parsed findings score) ids s)
          = slice_first 10 (newThreats ids findings)
        /\ Forall (fun t => Threat.status t = active)
                  (threats (handleDeepScan_resume (Parsed findings score) ids s))).
Proof.
  split.
  - intros H. simpl. repeat split. unfold ingest, slice_first. simpl.
    apply take_ge. exact H.
  - intros findings H.
    assert (E : threats (handleDeepScan_resume (Parsed findings score) ids s)
                = slice_first 10 (newThreats ids findings)).
    { simpl. unfold ingest, slice_first.
      rewrite take_app_le by (rewrite newThreats_length; exact H). reflexivity. }
    split; [exact E |]. rewrite E. apply Forall_take, newThreats_active.
Qed.

Lemma handleDeepScan_empty_and_full_witness :
  threats (handleDeepScan_resume (Parsed [] None) sampleIds sampleState)
    = threats sampleState
  /\ threats (handleDeepScan_resume (Parsed tenFindings None) sampleIds sampleState)
       = slice_first 10 (newThreats sampleIds tenFindings).
Proof.
  split.
  - apply (proj1 (handleDeepScan_empty_and_full None sampleIds sampleState)).
    simpl. lia.
  - apply (proj2 (handleDeepScan_empty_and_full None sampleIds sampleState) tenFindings).
    simpl. lia.
Defined.

(** X13: whatever JSON value a finding is, the threat made of it is
    active (a status property of the finding is overwritten), and its id
    is the finding's own id property when it has one, the generated token
    otherwise; a property that the finding lacks is undefined in the
    threat, and a finding that is not an object gives a threat with no
    field but its id and status. *)
Theorem handleDeepScan_untyped_finding
    (findings : list value) (score : option Q) (ids : nat -> string) (s : State)
    (i : nat) (f : value) :
  i < 10 -> findings !! i = Some f ->
  exists t : Threat.t,
    threats (handleDeepScan_resume (Parsed findings score) ids s) !! i = Some t
    /\ Threat.status t = active
    /\ (forall v, own f "id" = Some v -> Threat.id t = v)
    /\ (own f "id" = None -> Threat.id t = VStr (ids i))
    /\ (forall v, own f "severity" = Some v -> Threat.severity t = v)
    /\ (own f "description" = None -> Threat.description t = VUndefined)
    /\ ((forall props, f <> VObj props) ->
          t = Threat.mk (VStr (ids i)) VUndefined VUndefined VUndefined VUndefined active).
Proof.
  intros Hi Hf. exists (mkThreat (ids i) f). split.
  - simpl. unfold ingest, slice_first. rewrite lookup_take_lt by exact Hi.
    rewrite lookup_app_l
      by (rewrite newThreats_length; apply lookup_lt_Some in Hf; exact Hf).
    unfold newThreats. rewrite list_lookup_imap, Hf. reflexivity.
  - unfold mkThreat, field. simpl. repeat split.
    + intros v ->. reflexivity.
    + intros ->. reflexivity.
    + intros v ->. reflexivity.
    + intros ->. reflexivity.
    + intros Hno. destruct f; try reflexivity. exfalso. apply (Hno props). reflexivity.
Qed.

Lemma handleDeepScan_untyped_finding_witness :
  exists t : Threat.t,
    threats (handleDeepScan_resume (Parsed [VNull] None) sampleIds scanningState)
      !! 0%nat = Some t
    /\ Threat.status t = active.
Proof.
  destruct (handleDeepScan_untyped_finding [VNull] None sampleIds scanningState
              0%nat VNull) as (t & Ht & Hs & _).
  - lia.
  - reflexivity.
  - exists t. split; [exact Ht | exact Hs].
Defined.

(** ** Shield *)

(** X14: the shield is advisory.  Toggling it twice gives the dashboard
    back; toggling commutes with the telemetry tick, the patch, the
    clearing and the end of a scan; and it neither blocks nor triggers a
    scan: the same request is sent with the same log excerpt, only its
    shield status differs. *)
Theorem shield_is_advisory (s : State) :
  toggleShield (toggleShield s) = s
  /\ (forall d, telemetryTick d (toggleShield s) = toggleShield (telemetryTick d s))
  /\ (forall id now, patchThreat id now (toggleShield s)
                     = toggleShield (patchThreat id now s))
  /\ clearPatched (toggleShield s) = toggleShield (clearPatched s)
  /\ (forall o ids, handleDeepScan_resume o ids (toggleShield s)
                    = toggleShield (handleDeepScan_resume o ids s))
  /\ fst (handleDeepScan_call (toggleShield s))
       = toggleShield (fst (handleDeepScan_call s))
  /\ (forall r, snd (handleDeepScan_call s) = Some r ->
        exists r', snd (handleDeepScan_call (toggleShield s)) = Some r'
                   /\ recentLogs r' = recentLogs r
                   /\ shieldStatus r' <> shieldStatus r).
Proof.
  destruct s as [l ts m sh sc tt].
  split; [| split; [| split; [| split; [| split; [| split]]]]].
  - unfold toggleShield, setIsShieldActive. simpl. rewrite negb_involutive. reflexivity.
  - reflexivity.
  - reflexivity.
  - reflexivity.
  - intros o ids. destruct o; reflexivity.
  - unfold handleDeepScan_call. simpl. destruct sc; reflexivity.
  - intros r. unfold handleDeepScan_call. simpl. destruct sc; simpl; [discriminate |].
    intros [= <-]. eexists. split; [reflexivity |]. split; [reflexivity |].
    simpl. destruct sh; discriminate.
Qed.

Lemma shield_is_advisory_witness :
  exists r', snd (handleDeepScan_call (toggleShield initialState)) = Some r'
             /\ shieldStatus r' <> shieldStatus (buildRequest initialState).
Proof.
  destruct (proj2 (proj2 (proj2 (proj2 (proj2 (proj2
              (shield_is_advisory initialState))))))
              (buildRequest initialState)) as (r' & Hr & _ & Hs).
  - reflexivity.
  - exists r'. split; [exact Hr | exact Hs].
Defined.

(** ** Scanner output *)

Lemma step_scanPanel (w w' : World) (e : Event) :
  consistent w /\ scanPanel w -> step w e = Some w' -> consistent w' /\ scanPanel w'.
Proof.
  intros [Hc Hp] Hs. split; [eapply step_consistent; eassumption |].
  destruct Hc as [Hpend _]. unfold scanPanel in *.
  step_cases e Hs; try exact Hp.
  - rewrite Escan in *. exact Hp.
  - reflexivity.
  - destruct (sent w) as [| r rs].
    + destruct Hp as [_ Hp]. rewrite Hp in Hpend. congruence.
    + destruct (scanTry o ids (app w)) as [s' |] eqn:E.
      * destruct o; simpl in E; try discriminate. injection E as <-. left. reflexivity.
      * right. reflexivity.
Qed.

(** X15: the SCANNER_OUTPUT panel follows the scans.  On every dashboard
    reached from the initial one the terminal text is empty (the panel
    shows its idle line) exactly as long as no scan was ever started;
    while a scan is awaited it is the three "Initializing" lines; and
    after a scan it is "Scan Complete" or "Scan interrupted", until the
    next scan starts. *)
Theorem scanner_output_follows_scans (es : list Event) (w : World) :
  run initialWorld es = Some w ->
  (terminalText (app w) = "" <-> sent w = [])
  /\ (isScanning (app w) = true -> terminalText (app w) = scanStartText)
  /\ (isScanning (app w) = false -> sent w <> [] ->
        terminalText (app w) = scanCompleteText \/ terminalText (app w) = interrupted).
Proof.
  intros H.
  assert (Hinv : consistent w /\ scanPanel w).
  { revert H. apply (run_invariant (fun w => consistent w /\ scanPanel w)).
    - intros w0 e w' H0 Hs. eapply step_scanPanel; eassumption.
    - split; [apply initialWorld_consistent | split; reflexivity]. }
  destruct Hinv as [_ Hp]. unfold scanPanel in Hp.
  destruct (sent w) as [| r rs].
  - destruct Hp as [Ht Hs]. rewrite Ht, Hs. repeat split; congruence.
  - destruct (isScanning (app w)).
    + rewrite Hp. repeat split; try congruence. intros E. vm_compute in E. discriminate.
    + repeat split; try congruence; try (intros _ _; exact Hp).
      intros E. destruct Hp as [Hp | Hp]; rewrite Hp in E; vm_compute in E; discriminate.
Qed.

Lemma scanner_output_follows_scans_witness :
  terminalText scanningState = scanStartText.
Proof.
  apply (scanner_output_follows_scans [StartScan]
           (mkWorld scanningState 1 [buildRequest initialState])).
  - reflexivity.
  - reflexivity.
Defined.

(** ** Scan request *)

(** X16: the request shows the oracle the last 10 log entries and the
    shield, nothing else: entries older than the last 10 do not change it,
    nor do the registry, the gauges or the terminal text, and with an
    empty store the log excerpt is the empty string. *)
Theorem scan_request_reads_last_ten (s : State) :
  (forall older : list LogEntry.t,
      10 <= length (logs s) ->
      buildRequest (setLogs (fun l => older ++ l) s) = buildRequest s)
  /\ (forall f g txt,
      buildRequest (setTerminalText txt (setMetrics g (setThreats f s)))
        = buildRequest s)
  /\ (logs s = [] -> recentLogs (buildRequest s) = "").
Proof.
  split; [| split].
  - intros older H. unfold buildRequest. simpl.
    rewrite slice_last_app_long by exact H. reflexivity.
  - reflexivity.
  - intros E. unfold buildRequest. rewrite E. reflexivity.
Qed.

Lemma scan_request_reads_last_ten_witness :
  recentLogs (buildRequest initialState) = "".
Proof.
  apply (proj2 (proj2 (scan_request_reads_last_ten initialState))).
  reflexivity.
Defined.

(** ** Presentation *)

Lemma alarm_threatIndexColor (q : Q) :
  ((70 < q)%Q /\ alarm (threatIndexColor (Some q)) = 2)
  \/ ((30 < q)%Q /\ (q <= 70)%Q /\ alarm (threatIndexColor (Some q)) = 1)
  \/ ((q <= 30)%Q /\ alarm (threatIndexColor (Some q)) = 0).
Proof.
  unfold threatIndexColor.
  destruct (gt q 70) eqn:E1; [| destruct (gt q 30) eqn:E2].
  - left. apply gt_true in E1. split; [exact E1 | reflexivity].
  - right; left. apply gt_false in E1. apply gt_true in E2. repeat split; assumption.
  - right; right. apply gt_false in E2. split; [exact E2 | reflexivity].
Qed.

(** X17: the THREAT_INDEX bar is red above 70, amber above 30 and green
    otherwise (also when threatLevel is not a number), and a patch never
    moves it to a more alarming colour. *)
Theorem patchThreat_never_raises_alarm (id now : string) (s : State) :
  alarm (threatIndexColor (SystemMetrics.threatLevel (metrics (patchThreat id now s))))
    <= alarm (threatIndexColor (SystemMetrics.threatLevel (metrics s)))
  /\ (forall q : Q,
        (threatIndexColor (Some q) = "bg-red-500" <-> (70 < q)%Q)
        /\ (threatIndexColor (Some q) = "bg-amber-500" <-> (30 < q)%Q /\ (q <= 70)%Q)
        /\ (threatIndexColor (Some q) = "bg-emerald-500" <-> (q <= 30)%Q))
  /\ threatIndexColor None = "bg-emerald-500".
Proof.
  split; [| split; [| reflexivity]].
  - simpl. destruct (SystemMetrics.threatLevel (metrics s)) as [q |]; simpl; [| lia].
    change (alarm (threatIndexColor (Some (Qmax 0 (q - 15))))
            <= alarm (threatIndexColor (Some q))).
    destruct (alarm_threatIndexColor (Qmax 0 (q - 15)))
      as [[H ->] | [(H & H' & ->) | (H & ->)]];
      destruct (alarm_threatIndexColor q) as [[K ->] | [(K & K' & ->) | (K & ->)]];
      try lia; exfalso;
      destruct (Q.max_spec 0 (q - 15)) as [[M E] | [M E]]; rewrite E in *; lra.
  - intros q. unfold threatIndexColor.
    destruct (gt q 70) eqn:E1; [| destruct (gt q 30) eqn:E2].
    + apply gt_true in E1. repeat split; try discriminate; try tauto; intros; lra.
    + apply gt_false in E1. apply gt_true in E2.
      repeat split; try discriminate; try tauto; intros; lra.
    + apply gt_false in E1. apply gt_false in E2.
      repeat split; try discriminate; try tauto; intros; lra.
Qed.

Lemma patchThreat_never_raises_alarm_witness :
  threatIndexColor (Some (50 # 1)) = "bg-amber-500".
Proof.
  apply (proj1 (proj2 (patchThreat_never_raises_alarm "t1" "12:00:05" oneThreatState))
           (50 # 1)).
  split; [reflexivity | discriminate].
Defined.

(** X18: the percentage that [MetricBar] prints is within one half of the
    gauge, halves rounded up, and for a gauge in [0,100] it is one of the
    integers 0 to 100. *)
Theorem MetricBar_percent (q : Q) :
  (inject_Z (Math_round q) - (1 # 2) <= q)%Q
  /\ (q < inject_Z (Math_round q) + (1 # 2))%Q
  /\ (inRange q -> (0 <= Math_round q <= 100)%Z).
Proof.
  unfold Math_round.
  pose proof (Qfloor_le (q + (1 # 2))) as Hle.
  pose proof (Qlt_floor (q + (1 # 2))) as Hlt.
  rewrite inject_Z_plus in Hlt. change (inject_Z 1) with 1%Q in Hlt.
  split; [lra |]. split; [lra |].
  intros [H0 H100]. split.
  - change 0%Z with (Qfloor 0). apply Qfloor_resp_le. lra.
  - change 100%Z with (Qfloor (201 # 2)). apply Qfloor_resp_le. lra.
Qed.

Lemma MetricBar_percent_witness : (0 <= Math_round (45 # 1) <= 100)%Z.
Proof.
  apply (proj2 (proj2 (MetricBar_percent (45 # 1)))).
  split; discriminate.
Defined.

(** ** Telemetry beside the other handlers *)

(** X19: telemetry and the other handlers.  A tick leaves the registry,
    threatLevel, the shield, the scanning flag and the terminal text
    alone, and it commutes with the end of a scan and with a clearing.
    It does not commute with the start of a scan: the dashboard reached is
    the same in both orders and a request is sent in one exactly when it
    is in the other, with the same shield status, but the request sent
    after the tick is built from the last 10 entries of the store with
    the tick's entry among them, so its log excerpt can differ. *)
Theorem telemetryTick_independent (d : TickInput) (s : State) :
  threats (telemetryTick d s) = threats s
  /\ SystemMetrics.threatLevel (metrics (telemetryTick d s))
       = SystemMetrics.threatLevel (metrics s)
  /\ isShieldActive (telemetryTick d s) = isShieldActive s
  /\ isScanning (telemetryTick d s) = isScanning s
  /\ terminalText (telemetryTick d s) = terminalText s
  /\ (forall o ids, handleDeepScan_resume o ids (telemetryTick d s)
                    = telemetryTick d (handleDeepScan_resume o ids s))
  /\ clearPatched (telemetryTick d s) = telemetryTick d (clearPatched s)
  /\ fst (handleDeepScan_call (telemetryTick d s))
       = telemetryTick d (fst (handleDeepScan_call s))
  /\ (snd (handleDeepScan_call (telemetryTick d s)) = None
      <-> snd (handleDeepScan_call s) = None)
  /\ (forall r : Request,
        snd (handleDeepScan_call s) = Some r ->
        snd (handleDeepScan_call (telemetryTick d s))
          = Some (mkRequest
                    (String.concat newline
                       (map formatLog (slice_last 10 (logs s ++ [newLog d]))))
                    (shieldStatus r))).
Proof.
  assert (Hreq : forall r : Request,
            snd (handleDeepScan_call s) = Some r ->
            snd (handleDeepScan_call (telemetryTick d s))
              = Some (mkRequest
                        (String.concat newline
                           (map formatLog (slice_last 10 (logs s ++ [newLog d]))))
                        (shieldStatus r))).
  { intros r. unfold handleDeepScan_call. simpl.
    destruct (isScanning s); simpl; [discriminate |]. intros [= <-].
    unfold buildRequest. simpl. do 3 f_equal.
    rewrite !(slice_last_app_short 10) by (simpl; lia).
    rewrite slice_last_idem by (simpl; lia). reflexivity. }
  split; [reflexivity |]. split; [reflexivity |]. split; [reflexivity |].
  split; [reflexivity |]. split; [reflexivity |].
  split; [intros o ids; destruct o; reflexivity |].
  split; [reflexivity |].
  split; [unfold handleDeepScan_call; simpl; destruct (isScanning s); reflexivity |].
  split; [| exact Hreq].
  unfold handleDeepScan_call. simpl. destruct (isScanning s); simpl;
    split; intros H; first [reflexivity | discriminate].
Qed.

Lemma telemetryTick_independent_witness :
  snd (handleDeepScan_call (telemetryTick sampleTick initialState))
    = Some (mkRequest "[info] DataLayer: Cache invalidated for key: session_4x9" "ACTIVE")
  /\ snd (handleDeepScan_call initialState) = Some (mkRequest "" "ACTIVE").
Proof.
  split; [| reflexivity].
  apply (proj2 (proj2 (proj2 (proj2 (proj2 (proj2 (proj2 (proj2 (proj2
           (telemetryTick_independent sampleTick initialState)))))))))
           (mkRequest "" "ACTIVE")).
  reflexivity.
Defined.

(** X20: telemetry alone keeps a bounded history.  From the empty store
    the first 50 ticks are all kept, in order; from any store, after 50
    ticks or more in a row the store holds exactly the entries of the
    last 50 ticks, oldest first. *)
Theorem telemetry_bounded_history (ds : list TickInput) :
  (length ds <= 50 ->
     logs (telemetryTicks ds initialState) = map newLog ds)
  /\ (forall s : State,
        50 <= length ds ->
        logs (telemetryTicks ds s) = map newLog (slice_last 50 ds)
        /\ length (logs (telemetryTicks ds s)) = 50).
Proof.
  split.
  - intros H. destruct ds as [| d ds]; [reflexivity |].
    rewrite telemetryTicks_logs by discriminate.
    apply slice_last_short. simpl. rewrite length_map. exact H.
  - intros s H. apply telemetryTicks_bounded_history. exact H.
Qed.

Lemma telemetry_bounded_history_witness :
  logs (telemetryTicks [sampleTick; sampleTick] initialState)
    = map newLog [sampleTick; sampleTick]
  /\ length (logs (telemetryTicks (replicate 51 sampleTick) sampleState)) = 50.
Proof.
  split.
  - apply (proj1 (telemetry_bounded_history [sampleTick; sampleTick])). simpl. lia.
  - apply (proj2 (telemetry_bounded_history (replicate 51 sampleTick)) sampleState).
    simpl. lia.
Defined.
